(** * azure-library: the configuration import and publish core of [app.py]

    A shallow embedding of the helpers and request handlers of [app.py]
    (flattening, legacy XML settings, secret classification, the session
    variable set and the two-call publish protocol) and the properties
    of them stated in the specification.

    Conventions.
    - A Python [str] is the list of its Unicode code points.
    - A Python [dict] is the list of its items in insertion order:
      assigning to a key that is present keeps the item's position,
      assigning to a new key appends.
    - What the libraries compute from text ([json.loads],
      [ET.fromstring], [Response.json], the HTTP round trip) is an input
      of the model: a handler receives the outcome of the parse, and the
      remote service is a function from the call to its outcome. *)

From Stdlib Require Import List ZArith NArith Bool String Ascii Lia DecimalString.
Import ListNotations.

Set Implicit Arguments.
Set Warnings "-register-all".

(* ================================================================== *)
(** ** Python strings and dictionaries *)
(* ================================================================== *)

Module Py.

(** A [str]: code points, in order. *)
Definition str := list N.

(** Decoding of a UTF-8 byte sequence, used to write the literals of the
    source (some carry Turkish letters) as they stand in [app.py]. *)
Fixpoint utf8_decode (bs : list N) : str :=
  match bs with
  | [] => []
  | b0 :: t =>
      if (b0 <? 128)%N then b0 :: utf8_decode t
      else if (b0 <? 224)%N then
        match t with
        | b1 :: t1 => ((b0 - 192) * 64 + (b1 - 128))%N :: utf8_decode t1
        | _ => []
        end
      else if (b0 <? 240)%N then
        match t with
        | b1 :: b2 :: t2 =>
            ((b0 - 224) * 4096 + (b1 - 128) * 64 + (b2 - 128))%N
              :: utf8_decode t2
        | _ => []
        end
      else
        match t with
        | b1 :: b2 :: b3 :: t3 =>
            ((b0 - 240) * 262144 + (b1 - 128) * 4096
             + (b2 - 128) * 64 + (b3 - 128))%N :: utf8_decode t3
        | _ => []
        end
  end.

Definition py (s : string) : str :=
  utf8_decode (map N_of_ascii (list_ascii_of_string s)).

Fixpoint str_eqb (a b : str) : bool :=
  match a, b with
  | [], [] => true
  | x :: a', y :: b' => (x =? y)%N && str_eqb a' b'
  | _, _ => false
  end.

(** Truth value of a string: non-empty. *)
Definition truthy (s : str) : bool :=
  match s with [] => false | _ :: _ => true end.

(** [str.isspace] on one character: the white space of the Unicode
    character database (the characters [str.strip()] removes). *)
Definition isspace (c : N) : bool :=
  ((9 <=? c) && (c <=? 13) || (28 <=? c) && (c <=? 32)
   || (c =? 133) || (c =? 160) || (c =? 5760)
   || (8192 <=? c) && (c <=? 8202)
   || (c =? 8232) || (c =? 8233) || (c =? 8239) || (c =? 8287)
   || (c =? 12288))%N.

Fixpoint lstrip (s : str) : str :=
  match s with
  | [] => []
  | c :: t => if isspace c then lstrip t else s
  end.

Definition rstrip (s : str) : str := rev (lstrip (rev s)).

(** [s.strip()] *)
Definition strip (s : str) : str := rstrip (lstrip s).

(** [s.split(sep)] for a separator of one character; the result is never
    empty, [split sep [] = [[]]]. *)
Fixpoint split (sep : N) (s : str) : list str :=
  match s with
  | [] => [[]]
  | c :: t =>
      if (c =? sep)%N then [] :: split sep t
      else match split sep t with
           | h :: r => (c :: h) :: r
           | [] => [[c]]
           end
  end.

(** [sep.join(parts)] *)
Fixpoint join (sep : str) (parts : list str) : str :=
  match parts with
  | [] => []
  | [p] => p
  | p :: rest => p ++ sep ++ join sep rest
  end.

(** [str(i)] of an integer: its decimal numeral. *)
Definition str_of_int (z : Z) : str :=
  py (NilZero.string_of_int (Z.to_int z)).

(** [sub in s] *)
Fixpoint startswith (p s : str) : bool :=
  match p, s with
  | [], _ => true
  | x :: p', y :: s' => (x =? y)%N && startswith p' s'
  | _ :: _, [] => false
  end.


Section Dict.
Variable V : Type.

(** The items of a dictionary keyed by strings, in insertion order. *)
Definition dict := list (str * V).

(** [d.get(k)] *)
Fixpoint dict_get (d : dict) (k : str) : option V :=
  match d with
  | [] => None
  | (k', v) :: d' => if str_eqb k k' then Some v else dict_get d' k
  end.

(** [d[k] = v] *)
Fixpoint dict_set (d : dict) (k : str) (v : V) : dict :=
  match d with
  | [] => [(k, v)]
  | (k', v') :: d' =>
      if str_eqb k k' then (k', v) :: d' else (k', v') :: dict_set d' k v
  end.

Definition keys (d : dict) : list str := map fst d.
Definition values (d : dict) : list V := map snd d.

(** [k in d] *)
Definition has_key (d : dict) (k : str) : bool :=
  match dict_get d k with Some _ => true | None => false end.

(** The dictionary built by assigning the pairs of [l], in order. *)
Definition assign_all (d : dict) (l : list (str * V)) : dict :=
  fold_left (fun acc kv => dict_set acc (fst kv) (snd kv)) l d.
End Dict.

Arguments dict_get {V} d k.
Arguments dict_set {V} d k v.
Arguments keys {V} d.
Arguments values {V} d.
Arguments has_key {V} d k.
Arguments assign_all {V} d l.

End Py.
Import Py.

Local Open Scope string_scope.
Local Open Scope list_scope.

(* ================================================================== *)
(** ** JSON values *)
(* ================================================================== *)

(** What [json.loads] returns.  A float stands as its [repr] text, which
    identifies it and is what [str] gives for it; the program never
    computes with one. *)
Inductive scalar : Type :=
| SNone
| SBool (b : bool)
| SInt (z : Z)
| SFloat (repr : str)
| SStr (s : str).

Inductive json : Type :=
| JScalar (s : scalar)
| JList (l : list json)
| JDict (m : list (str * json)).

Definition JStr (s : str) : json := JScalar (SStr s).
Definition JInt (z : Z) : json := JScalar (SInt z).
Definition JNone : json := JScalar SNone.

(** [str(x)] of a scalar. *)
Definition str_of_scalar (s : scalar) : str :=
  match s with
  | SNone => py "None"
  | SBool true => py "True"
  | SBool false => py "False"
  | SInt z => str_of_int z
  | SFloat r => r
  | SStr s => s
  end.

(** [type(x).__name__] *)
Definition type_name (x : json) : str :=
  match x with
  | JScalar SNone => py "NoneType"
  | JScalar (SBool _) => py "bool"
  | JScalar (SInt _) => py "int"
  | JScalar (SFloat _) => py "float"
  | JScalar (SStr _) => py "str"
  | JList _ => py "list"
  | JDict _ => py "dict"
  end.

(** A result or the text of the exception raised instead. *)
Inductive exc (A : Type) : Type :=
| Ok (a : A)
| Exn (text : str).
Arguments Ok {A} a.
Arguments Exn {A} text.

(** [x.get(k, default)]: only a dictionary has the method. *)
Definition json_get (x : json) (k : str) (default : json) : exc json :=
  match x with
  | JDict m =>
      Ok (match dict_get m k with Some v => v | None => default end)
  | _ =>
      Exn (py "'" ++ type_name x ++ py "' object has no attribute 'get'")
  end.

(** [len(x)] *)
Definition py_len (x : json) : exc nat :=
  match x with
  | JDict m => Ok (List.length m)
  | JList l => Ok (List.length l)
  | JScalar (SStr s) => Ok (List.length s)
  | _ => Exn (py "object of type '" ++ type_name x ++ py "' has no len()")
  end.

(* ================================================================== *)
(** ** Helpers of [app.py] *)
(* ================================================================== *)

(** *** [SECRET_PATTERNS] and [is_secret_key] *)

(** The alternatives of the pattern, in its order. *)
Definition SECRET_TOKENS : list str :=
  map py ["secret"; "token"; "password"; "passwd"; "apikey"; "api_key";
          "client_secret"; "connectionstring"; "conn_str"; "key"].

(** [re.IGNORECASE] on one character of the pattern (a lower-case ASCII
    letter or the underscore): the letter in either case, and the four
    letters outside ASCII that share a case with [i], [s] and [k]. *)
Definition ignorecase_char (p c : N) : bool :=
  ((c =? p)
   || (97 <=? p) && (p <=? 122) && (c + 32 =? p)
   || (p =? 105) && ((c =? 304) || (c =? 305))
   || (p =? 115) && (c =? 383)
   || (p =? 107) && (c =? 8490))%N.

(** Matching one alternative at the start of [s]: what is left of [s]. *)
Fixpoint match_literal (p s : str) : option str :=
  match p, s with
  | [], _ => Some s
  | x :: p', c :: s' =>
      if ignorecase_char x c then match_literal p' s' else None
  | _ :: _, [] => None
  end.

(** The anchor [$] without [re.MULTILINE]: the end of the string, or the
    place before a line feed that ends the string. *)
Definition at_dollar (rest : str) : bool :=
  match rest with
  | [] => true
  | [c] => (c =? 10)%N
  | _ => false
  end.

(** The pattern tried at the start of [s]. *)
Definition SECRET_PATTERNS_match (s : str) : bool :=
  existsb (fun t => match match_literal t s with
                    | Some rest => at_dollar rest
                    | None => false
                    end) SECRET_TOKENS.

(** [SECRET_PATTERNS.search(s)]: the pattern tried at every position. *)
Fixpoint SECRET_PATTERNS_search (s : str) : bool :=
  SECRET_PATTERNS_match s
  || match s with
     | [] => false
     | _ :: t => SECRET_PATTERNS_search t
     end.

Definition is_secret_key (key_path : str) : bool :=
  let last := List.last (split 46 key_path) [] in
  let last := List.last (split 95 last) [] in
  SECRET_PATTERNS_search last.

(** *** [flatten_json] *)

Definition new_key (pk k : str) : str :=
  if truthy pk then pk ++ py "." ++ k else k.

(** [_walk] with the dictionary [out] it writes to passed along. *)
Fixpoint _walk (x : json) (pk : str) (out : dict str) {struct x} : dict str :=
  match x with
  | JDict m =>
      (fix items (m : list (str * json)) (out : dict str) : dict str :=
         match m with
         | [] => out
         | (k, v) :: m' => items m' (_walk v (new_key pk k) out)
         end) m out
  | JList l =>
      (fix enumerate (l : list json) (i : nat) (out : dict str) : dict str :=
         match l with
         | [] => out
         | v :: l' =>
             enumerate l' (S i)
               (_walk v (new_key pk (str_of_int (Z.of_nat i))) out)
         end) l 0%nat out
  | JScalar s =>
      let val := match s with SNone => [] | _ => str_of_scalar s end in
      dict_set out pk val
  end.

Definition flatten_json (obj : json) (parent_key : str) : dict str :=
  _walk obj parent_key [].

(** *** [parse_web_config] *)

(** An element as [ET.fromstring] returns it. *)
Inductive element : Type :=
| Element (tag : str) (attrib : dict str) (children : list element).

Definition tag (e : element) : str :=
  match e with Element t _ _ => t end.
Definition attrib (e : element) : dict str :=
  match e with Element _ a _ => a end.
Definition children (e : element) : list element :=
  match e with Element _ _ c => c end.

(** [e.find(t)]: the first child with the tag. *)
Definition find (e : element) (t : str) : option element :=
  List.find (fun c => str_eqb (tag c) t) (children e).

(** [e.findall(t)]: the children with the tag, in document order. *)
Definition findall (e : element) (t : str) : list element :=
  filter (fun c => str_eqb (tag c) t) (children e).

(** The body of the loop over the [add] elements of [appSettings]. *)
Definition app_settings_add (section_prefix : bool) (out : dict str)
    (add : element) : dict str :=
  let k := dict_get (attrib add) (py "key") in
  let v := dict_get (attrib add) (py "value") in
  match k, v with
  | Some k, Some v =>
      if truthy k then
        let key := if section_prefix then py "appSettings." ++ k else k in
        dict_set out key v
      else out
  | _, _ => out
  end.

(** The body of the loop over the [add] elements of [connectionStrings]. *)
Definition conns_add (section_prefix : bool) (out : dict str)
    (add : element) : dict str :=
  let name := dict_get (attrib add) (py "name") in
  let cs := dict_get (attrib add) (py "connectionString") in
  match name, cs with
  | Some name, Some cs =>
      if truthy name then
        let key :=
          if section_prefix then py "connectionStrings." ++ name else name in
        dict_set out key cs
      else out
  | _, _ => out
  end.

(** [parse_web_config] on the tree of the document. *)
Definition parse_web_config (root : element) (section_prefix : bool)
  : dict str :=
  let out := [] in
  let out :=
    match find root (py "appSettings") with
    | Some app_settings =>
        fold_left (app_settings_add section_prefix)
          (findall app_settings (py "add")) out
    | None => out
    end in
  let out :=
    match find root (py "connectionStrings") with
    | Some conns =>
        fold_left (conns_add section_prefix) (findall conns (py "add")) out
    | None => out
    end in
  out.

(** *** [build_auth_header] *)

(** A surrogate code point: [str.encode("utf-8")] refuses it. *)
Definition surrogate (c : N) : bool := ((55296 <=? c) && (c <=? 57343))%N.

(** The UTF-8 bytes of one character, or nothing for a surrogate. *)
Definition utf8_encode_char (c : N) : option (list N) :=
  if (c <? 128)%N then Some [c]
  else if (c <? 2048)%N then Some [192 + c / 64; 128 + c mod 64]%N
  else if surrogate c then None
  else if (c <? 65536)%N then
    Some [224 + c / 4096; 128 + (c / 64) mod 64; 128 + c mod 64]%N
  else
    Some [240 + c / 262144; 128 + (c / 4096) mod 64;
          128 + (c / 64) mod 64; 128 + c mod 64]%N.

(** [s.encode("utf-8")]: the bytes, or nothing where Python raises
    [UnicodeEncodeError]. *)
Fixpoint utf8_encode (s : str) : option (list N) :=
  match s with
  | [] => Some []
  | c :: t =>
      match utf8_encode_char c, utf8_encode t with
      | Some bs, Some rest => Some (bs ++ rest)
      | _, _ => None
      end
  end.

(** The character of the base64 alphabet for a value below 64. *)
Definition b64_char (n : N) : N :=
  if (n <? 26)%N then (65 + n)%N
  else if (n <? 52)%N then (97 + (n - 26))%N
  else if (n <? 62)%N then (48 + (n - 52))%N
  else if (n =? 62)%N then 43%N
  else 47%N.

(** [base64.b64encode(bs)], read as text: three bytes give four
    characters, and the last group is padded with [=]. *)
Fixpoint b64encode (bs : list N) : str :=
  match bs with
  | [] => []
  | [a] => [b64_char (a / 4); b64_char ((a mod 4) * 16); 61; 61]%N
  | [a; b] =>
      [b64_char (a / 4); b64_char ((a mod 4) * 16 + b / 16);
       b64_char ((b mod 16) * 4); 61]%N
  | a :: b :: c :: rest =>
      [b64_char (a / 4); b64_char ((a mod 4) * 16 + b / 16);
       b64_char ((b mod 16) * 4 + c / 64); b64_char (c mod 64)]%N
      ++ b64encode rest
  end.

(** [build_auth_header(pat_token)]: the header, or nothing when the
    token cannot be encoded and the function raises. *)
Definition build_auth_header (pat_token : str) : option (dict str) :=
  match utf8_encode (58%N :: pat_token) with
  | Some pat_bytes =>
      let pat_base64 := b64encode pat_bytes in
      Some [(py "Authorization", py "Basic " ++ pat_base64)]
  | None => None
  end.

(** A digit of [%x]. *)
Definition hex_char (n : N) : N :=
  if (n <? 10)%N then (48 + n)%N else (97 + (n - 10))%N.

(** [%04x] *)
Definition hex4 (c : N) : str :=
  [hex_char ((c / 4096) mod 16); hex_char ((c / 256) mod 16);
   hex_char ((c / 16) mod 16); hex_char (c mod 16)].

(** The surrogates at the start of [s]: the characters that the encoder
    reports together. *)
Fixpoint surrogate_run (s : str) : nat :=
  match s with
  | c :: t => if surrogate c then S (surrogate_run t) else 0
  | [] => 0
  end.

(** [str(e)] of the [UnicodeEncodeError] that [s.encode("utf-8")]
    raises, for the part [s] of the string that starts at [position]:
    the error names the first surrogate, or the first run of them. *)
Fixpoint unicode_encode_error_from (position : nat) (s : str) : str :=
  match s with
  | [] => []
  | c :: t =>
      if surrogate c then
        match surrogate_run t with
        | O =>
            py "'utf-8' codec can't encode character '\u" ++ hex4 c
            ++ py "' in position " ++ str_of_int (Z.of_nat position)
            ++ py ": surrogates not allowed"
        | S n =>
            py "'utf-8' codec can't encode characters in position "
            ++ str_of_int (Z.of_nat position) ++ py "-"
            ++ str_of_int (Z.of_nat (position + S n))
            ++ py ": surrogates not allowed"
        end
      else unicode_encode_error_from (S position) t
  end.

Definition unicode_encode_error (s : str) : str :=
  unicode_encode_error_from 0 s.

(* ================================================================== *)
(** ** The session and the request handlers *)
(* ================================================================== *)

(** A row of the variable table. *)
Record variable : Type := {
  key : str;
  value : str;
  isSecret : bool
}.

Record form : Type := {
  organization : str;
  project : str;
  pat_token : str;
  variable_group_name : str;
  vg_description : str
}.

(** The Flask session: either entry may be absent until [init_session]. *)
Record session : Type := {
  variables : option (list variable);
  form_data : option form
}.

(** What a handler hands to [jsonify]. *)
Record response : Type := {
  success : bool;
  message : option str;
  resp_variables : option (list variable);
  error_detail : option json
}.

Definition failure (msg : str) : response :=
  {| success := false; message := Some msg;
     resp_variables := None; error_detail := None |}.

Definition init_session (s : session) : session :=
  {| variables :=
       match variables s with Some v => Some v | None => Some [] end;
     form_data :=
       match form_data s with
       | Some f => Some f
       | None =>
           Some {| organization := []; project := []; pat_token := [];
                   variable_group_name := [];
                   vg_description :=
                     py "JSON / web.config'den otomatik oluşturuldu" |}
       end |}.

(** [session.get("variables", [])] *)
Definition session_variables (s : session) : list variable :=
  match variables s with Some v => v | None => [] end.

(** [session["variables"] = vars] *)
Definition set_variables (s : session) (vars : list variable) : session :=
  {| variables := Some vars; form_data := form_data s |}.

(** [session["form_data"] = f] *)
Definition set_form_data (s : session) (f : form) : session :=
  {| variables := variables s; form_data := Some f |}.

(** *** [load_data] *)

(** [{var["key"]: var for var in vars}] *)
Definition index_vars (vars : list variable) : dict variable :=
  fold_left (fun d var => dict_set d (key var) var) vars [].

(** [for k, v in flat.items(): current_vars[k] = {...}] *)
Definition overlay (current_vars : dict variable) (flat : dict str)
  : dict variable :=
  fold_left
    (fun d kv =>
       dict_set d (fst kv)
         {| key := fst kv; value := snd kv; isSecret := false |})
    flat current_vars.

(** The import-merge: what either branch of [load_data] stores for the
    variables [existing] of the session and the imported map [incoming]. *)
Definition merge (existing : list variable) (incoming : dict str)
  : list variable :=
  values (overlay (index_vars existing) incoming).

(** What a parser of the libraries makes of the content: the value, the
    error of the parser ([json.JSONDecodeError], [ET.ParseError]) with
    its text, or another exception with its text (a [RecursionError]
    of [json.loads], the [UnicodeEncodeError] of [content.encode]). *)
Inductive parsed (A : Type) : Type :=
| Parsed (a : A)
| Malformed (text : str)
| Failed (text : str).
Arguments Parsed {A} a.
Arguments Malformed {A} text.
Arguments Failed {A} text.

(** The request of [load_data]: the type, and what [json.loads] and
    [ET.fromstring] make of the content. *)
Record load_request : Type := {
  input_type : str;
  json_loads : parsed json;
  fromstring : parsed element
}.

Definition load_data (data : load_request) (s : session)
  : response * session :=
  let s := init_session s in
  if str_eqb (input_type data) (py "json") then
    match json_loads data with
    | Parsed json_data =>
        let flat := flatten_json json_data [] in
        let s := set_variables s (merge (session_variables s) flat) in
        ({| success := true;
            message :=
              Some (py "JSON: "
                    ++ str_of_int (Z.of_nat (List.length flat))
                    ++ py " anahtar okundu.");
            resp_variables := Some (session_variables s);
            error_detail := None |}, s)
    | Malformed e => (failure (py "JSON okunamadı: " ++ e), s)
    | Failed e => (failure (py "Hata: " ++ e), s)
    end
  else if str_eqb (input_type data) (py "xml") then
    match fromstring data with
    | Parsed root =>
        let xml_map := parse_web_config root false in
        let s := set_variables s (merge (session_variables s) xml_map) in
        ({| success := true;
            message :=
              Some (py "XML: "
                    ++ str_of_int (Z.of_nat (List.length xml_map))
                    ++ py " anahtar okundu.");
            resp_variables := Some (session_variables s);
            error_detail := None |}, s)
    | Malformed e => (failure (py "XML parse hatası: " ++ e), s)
    | Failed e => (failure (py "Hata: " ++ e), s)
    end
  else (failure (py "Geçersiz tür (json/xml)."), s).

(** *** [update_variables] *)

Definition update_variables (data_variables : list variable) (s : session)
  : response * session :=
  let s := init_session s in
  ({| success := true; message := None;
      resp_variables := None; error_detail := None |},
   set_variables s data_variables).

(** *** The remote service *)

Record http_response : Type := {
  status_code : Z;
  text : str;
  (** [r.json()]: the body parsed, or the error of the parse *)
  json_of : exc json
}.

(** The two requests of the program, named by what their URL, header and
    body are made of. *)
Inductive call : Type :=
| GetProject (organization project pat_token : str)
| PostVariableGroup (organization pat_token : str) (payload : json).

(** The service answers a call or the request raises. *)
Definition remote := call -> exc http_response.

(** The state a handler runs in: the session and the calls made so far. *)
Record world : Type := {
  sess : session;
  calls : list call
}.

(** A handler computation: it reads the service, changes the state and
    returns or raises. *)
Definition handler (A : Type) : Type :=
  remote -> world -> exc A * world.

Definition ret {A} (a : A) : handler A := fun _ w => (Ok a, w).

Definition bind {A B} (c : handler A) (k : A -> handler B) : handler B :=
  fun env w =>
    match c env w with
    | (Ok a, w') => k a env w'
    | (Exn e, w') => (Exn e, w')
    end.

Definition lift {A} (r : exc A) : handler A := fun _ w => (r, w).

(** [try: c except Exception as e: h(e)] *)
Definition try_except {A} (c : handler A) (h : str -> handler A)
  : handler A :=
  fun env w =>
    match c env w with
    | (Ok a, w') => (Ok a, w')
    | (Exn e, w') => h e env w'
    end.

Definition request (c : call) : handler http_response :=
  fun env w => (env c, {| sess := sess w; calls := calls w ++ [c] |}).

Definition modify_session (f : session -> session) : handler unit :=
  fun _ w => (Ok tt, {| sess := f (sess w); calls := calls w |}).

Declare Scope handler_scope.
Delimit Scope handler_scope with handler.
Notation "x <- c1 ;; c2" := (bind c1 (fun x => c2))
  (at level 61, c1 at next level, right associativity) : handler_scope.
Notation "c1 ;; c2" := (bind c1 (fun _ => c2))
  (at level 61, right associativity) : handler_scope.
Local Open Scope handler_scope.

(** *** [create_variable_group] *)

(** The entry of one row in the [variables] object. *)
Definition variable_entry (row : variable) : json :=
  JDict ((py "value", JStr (value row))
         :: (if isSecret row
             then [(py "isSecret", JScalar (SBool true))] else [])).

(** The loop that fills [variables]. *)
Definition build_variables (variables_table : list variable) : dict json :=
  fold_left
    (fun variables row =>
       let key := strip (key row) in
       if truthy key then dict_set variables key (variable_entry row)
       else variables)
    variables_table [].

Definition DEFAULT_DESCRIPTION : str := py "Created via Flask UI".

Definition build_payload (project : str) (project_id : json)
    (vg_name description : str) (variables_table : list variable) : json :=
  let variables := build_variables variables_table in
  let description :=
    if truthy description then description else DEFAULT_DESCRIPTION in
  JDict [
    (py "type", JStr (py "Vsts"));
    (py "name", JStr vg_name);
    (py "description", JStr description);
    (py "variables", JDict variables);
    (py "variableGroupProjectReferences",
      JList [
        JDict [
          (py "projectReference",
            JDict [(py "id", project_id); (py "name", JStr project)]);
          (py "name", JStr vg_name);
          (py "description", JStr description)
        ]
      ])
  ].

(** [{"Content-Type": "application/json", **build_auth_header(pat)}]:
    the headers of a request; building them raises when the token
    cannot be encoded. *)
Definition request_headers (pat_token : str) : handler (dict str) :=
  match build_auth_header pat_token with
  | Some auth =>
      ret (assign_all [(py "Content-Type", py "application/json")] auth)
  | None => lift (Exn (unicode_encode_error (py ":" ++ pat_token)))
  end.

Definition create_variable_group (organization project : str)
    (project_id : json) (vg_name description : str)
    (variables_table : list variable) (pat_token : str)
  : handler (http_response * json) :=
  headers <- request_headers pat_token ;;
  let payload :=
    build_payload project project_id vg_name description variables_table in
  r <- request (PostVariableGroup organization pat_token payload) ;;
  ret (r, payload).

Section Handlers.

(** [repr] of a list or a dictionary: the builtin is not part of the
    program. *)
Variable py_repr : json -> str.

(** A value inside an f-string. *)
Definition format (x : json) : str :=
  match x with
  | JScalar s => str_of_scalar s
  | _ => py_repr x
  end.

(** *** [get_project_id] *)

Definition get_project_id (organization project pat_token : str)
  : handler (bool * json) :=
  headers <- request_headers pat_token ;;
  r <- request (GetProject organization project pat_token) ;;
  if (status_code r =? 200)%Z then
    body <- lift (json_of r) ;;
    id <- lift (json_get body (py "id") (JStr [])) ;;
    ret (true, id)
  else
    msg <- try_except
             (body <- lift (json_of r) ;;
              lift (json_get body (py "message") (JStr (text r))))
             (fun _ => ret (JStr (text r))) ;;
    ret (false,
         JStr (str_of_int (status_code r) ++ py ": " ++ format msg)).

(** *** [create_vg] *)

(** The request of [create_vg]: the form fields and the variable table. *)
Record vg_request : Type := {
  data_form : form;
  data_variables : list variable
}.

Definition missing_fields (form_data : form) : list str :=
  fold_left
    (fun missing lv =>
       if truthy (strip (snd lv)) then missing else missing ++ [fst lv])
    [ (py "Organization", organization form_data);
      (py "Project", project form_data);
      (py "PAT Token", pat_token form_data);
      (py "Variable Group Name", variable_group_name form_data) ]
    [].

Definition success_message (id name : json) (count : nat) : str :=
  py "Variable Group başarıyla oluşturuldu! 🎉 "
  ++ py "ID: " ++ format id ++ py " | Ad: " ++ format name ++ py " | "
  ++ py "Değişken sayısı: " ++ str_of_int (Z.of_nat count).

Definition create_vg (data : vg_request) : handler response :=
  modify_session init_session ;;
  try_except
    (let form_data := data_form data in
     modify_session (fun s => set_form_data s form_data) ;;
     let variables := data_variables data in
     let missing := missing_fields form_data in
     match missing with
     | _ :: _ =>
         ret (failure (py "Eksik alanlar: " ++ join (py ", ") missing))
     | [] =>
         match variables with
         | [] => ret (failure (py "En az bir değişken ekleyin."))
         | _ :: _ =>
             okp <- get_project_id (organization form_data)
                      (project form_data) (pat_token form_data) ;;
             let ok := fst okp in
             let pid_or_err := snd okp in
             if negb ok then
               ret (failure (py "Proje bilgileri alınamadı: "
                             ++ format pid_or_err))
             else
               rp <- create_variable_group (organization form_data)
                       (project form_data) pid_or_err
                       (variable_group_name form_data)
                       (vg_description form_data) variables
                       (pat_token form_data) ;;
               let resp := fst rp in
               if ((status_code resp =? 200) || (status_code resp =? 201))%Z
               then
                 resp_data <- lift (json_of resp) ;;
                 id <- lift (json_get resp_data (py "id") JNone) ;;
                 name <- lift (json_get resp_data (py "name") JNone) ;;
                 vars <- lift (json_get resp_data (py "variables")
                                 (JDict [])) ;;
                 count <- lift (py_len vars) ;;
                 let success_msg := success_message id name count in
                 modify_session (fun s => set_variables s []) ;;
                 ret {| success := true; message := Some success_msg;
                        resp_variables := None; error_detail := None |}
               else
                 err <- try_except (lift (json_of resp))
                          (fun _ => ret (JDict [(py "raw", JStr (text resp))])) ;;
                 ret {| success := false;
                        message :=
                          Some (py "Hata: " ++ str_of_int (status_code resp));
                        resp_variables := None;
                        error_detail := Some err |}
         end
     end)
    (fun e => ret (failure (py "Beklenmeyen hata: " ++ e))).

(** [create_vg] run on a session against a service: the response, the
    session left behind and the calls made, in order. *)
Definition run_create_vg (data : vg_request) (s : session) (env : remote)
  : exc response * world :=
  create_vg data env {| sess := s; calls := [] |}.

End Handlers.

(* ================================================================== *)
(** ** Notions used to state the properties *)
(* ================================================================== *)

(** Membership of a key in a list of keys. *)
Definition mem (k : str) (ks : list str) : bool := existsb (str_eqb k) ks.

(** The keys of [ks] not in [seen], each once, in order of first
    occurrence: the keys a run of assignments appends. *)
Fixpoint new_keys (seen ks : list str) : list str :=
  match ks with
  | [] => []
  | k :: ks' =>
      if mem k seen then new_keys seen ks'
      else k :: new_keys (seen ++ [k]) ks'
  end.

(** The last assignment to [k] among the pairs of [l]. *)
Definition last_assigned {V} (l : list (str * V)) (k : str) : option V :=
  dict_get (rev l) k.

(** Every record is stored under its own key. *)
Definition keyed (d : dict variable) : Prop :=
  Forall (fun kv => key (snd kv) = fst kv) d.

(** No two records share a key. *)
Definition unique_keys (vars : list variable) : Prop :=
  NoDup (map key vars).

(** A string is blank: empty or white space only. *)
Definition blank (s : str) : bool := forallb isspace s.

(** The record an import writes for a key. *)
Definition imported (kv : str * str) : variable :=
  {| key := fst kv; value := snd kv; isSecret := false |}.

(** A record of the session after an import of [incoming]. *)
Definition overwritten (incoming : dict str) (r : variable) : variable :=
  match dict_get incoming (key r) with
  | Some v => {| key := key r; value := v; isSecret := false |}
  | None => r
  end.

(** An item of a dictionary after the pairs of [l] were assigned. *)
Definition updated {V} (l : list (str * V)) (kv : str * V) : str * V :=
  (fst kv, match dict_get l (fst kv) with Some v => v | None => snd kv end).

(** The pairs of [l] under keys that [d] does not have. *)
Definition fresh {V} (d : dict V) (l : list (str * V)) : list (str * V) :=
  filter (fun kv => negb (has_key d (fst kv))) l.

(** The item [index_vars] stores for a record. *)
Definition by_key (r : variable) : str * variable := (key r, r).

(** The item an import assigns for a pair of the imported map. *)
Definition as_record (kv : str * str) : str * variable :=
  (fst kv, imported kv).

(** *** Flattening, stated on the leaves of the value *)

(** The text stored for a scalar. *)
Definition leaf_value (s : scalar) : str :=
  match s with SNone => [] | _ => str_of_scalar s end.

(** The scalars of [x] with their paths, in document order, where a
    child is named by the member or index alone when the path of its
    parent is empty. *)
Fixpoint leaves (x : json) (path : str) {struct x} : list (str * str) :=
  match x with
  | JDict m =>
      (fix members (m : list (str * json)) : list (str * str) :=
         match m with
         | [] => []
         | (k, v) :: m' => leaves v (new_key path k) ++ members m'
         end) m
  | JList l =>
      (fix elements (l : list json) (i : nat) : list (str * str) :=
         match l with
         | [] => []
         | v :: l' =>
             leaves v (new_key path (str_of_int (Z.of_nat i)))
             ++ elements l' (S i)
         end) l 0%nat
  | JScalar s => [(path, leaf_value s)]
  end.

(** The child path in the words of the specification: the member or
    index alone at the root, [parent.member] elsewhere. *)
Definition child_path (at_root : bool) (parent name : str) : str :=
  if at_root then name else parent ++ py "." ++ name.

(** The scalars of [x] with their paths as the specification builds
    them; [at_root] tells whether [x] is the whole document. *)
Fixpoint spec_leaves (at_root : bool) (x : json) (path : str) {struct x}
  : list (str * str) :=
  match x with
  | JDict m =>
      (fix members (m : list (str * json)) : list (str * str) :=
         match m with
         | [] => []
         | (k, v) :: m' =>
             spec_leaves false v (child_path at_root path k) ++ members m'
         end) m
  | JList l =>
      (fix elements (l : list json) (i : nat) : list (str * str) :=
         match l with
         | [] => []
         | v :: l' =>
             spec_leaves false v
               (child_path at_root path (str_of_int (Z.of_nat i)))
             ++ elements l' (S i)
         end) l 0%nat
  | JScalar s => [(path, leaf_value s)]
  end.

(** [flatten] of the specification: one entry per scalar. *)
Definition spec_flatten (x : json) : dict str :=
  assign_all [] (spec_leaves true x []).

(** No member of the root object is named by the empty string. *)
Definition root_names_nonempty (x : json) : bool :=
  match x with
  | JDict m => forallb (fun kv => truthy (fst kv)) m
  | _ => true
  end.

(** The document [{"a": {"b": 1, "c": [2, 3]}}]. *)
Definition nested_example : json :=
  JDict [(py "a", JDict [(py "b", JInt 1);
                         (py "c", JList [JInt 2; JInt 3])])].

(** The document whose root has one member, named by the empty string,
    with the value [{"a": 1}]. *)
Definition empty_name_example : json :=
  JDict [([], JDict [(py "a", JInt 1)])].

(** *** Secret keys, stated on suffixes *)

(** [s.split(sep)[-1]] *)
Definition last_segment (sep : N) (s : str) : str :=
  List.last (split sep s) [].

(** [t] and [s] are equal when case is ignored ([t] in lower case). *)
Fixpoint iequal (t s : str) : bool :=
  match t, s with
  | [], [] => true
  | p :: t', c :: s' => ignorecase_char p c && iequal t' s'
  | _, _ => false
  end.

(** [s] ends with [t] when case is ignored. *)
Definition iendswith (s t : str) : bool :=
  (List.length t <=? List.length s)%nat
  && iequal t (skipn (List.length s - List.length t) s).

(** The last underscore-separated segment of the last dot-separated
    segment of a key. *)
Definition final_segment (k : str) : str :=
  last_segment 95 (last_segment 46 k).

(** The classifier in the words of the specification. *)
Definition ends_with_secret_token (k : str) : bool :=
  existsb (iendswith (final_segment k)) SECRET_TOKENS.

(** *** Legacy settings: sample documents *)

(** [<add .../>] with the given attributes. *)
Definition add_element (attrs : dict str) : element :=
  Element (py "add") attrs [].

(** A [web.config] whose four [add] elements carry an empty attribute
    each: the key or name in the first of a section, the value or
    connection string in the second. *)
Definition empty_attributes_example : element :=
  Element (py "configuration") [] [
    Element (py "appSettings") [] [
      add_element [(py "key", []); (py "value", py "Y")];
      add_element [(py "key", py "X"); (py "value", [])] ];
    Element (py "connectionStrings") [] [
      add_element [(py "name", []); (py "connectionString", py "c")];
      add_element [(py "name", py "N"); (py "connectionString", [])] ]
  ].

(** The key under which [appSettings] stores the attribute [k]. *)
Definition app_settings_key (section_prefix : bool) (k : str) : str :=
  if section_prefix then py "appSettings." ++ k else k.

(** The key under which [connectionStrings] stores the attribute [name]. *)
Definition conns_key (section_prefix : bool) (name : str) : str :=
  if section_prefix then py "connectionStrings." ++ name else name.

(** The [add] elements of the two sections of a document. *)
Definition app_settings_adds (root : element) : list element :=
  match find root (py "appSettings") with
  | Some app_settings => findall app_settings (py "add")
  | None => []
  end.

Definition conns_adds (root : element) : list element :=
  match find root (py "connectionStrings") with
  | Some conns => findall conns (py "add")
  | None => []
  end.

(** *** The payload, stated on the rows *)

(** The item a row with a key that is not blank puts into [variables]:
    the key without the white space around it, and the entry. *)
Definition variables_item (r : variable) : str * json :=
  (strip (key r), variable_entry r).

Definition nonblank_key (r : variable) : bool := negb (blank (key r)).

(** The last row whose key, stripped, is [k]. *)
Definition last_row (rows : list variable) (k : str) : option variable :=
  List.find (fun r => str_eqb k (strip (key r)))
    (rev (filter nonblank_key rows)).

(** A row whose key has a space in front. *)
Definition padded_row : variable :=
  {| key := py " a"; value := py "1"; isSecret := false |}.

(** *** Publishing, stated on the request and the answers *)

(** The labels of the required fields that are blank, in the order of
    the form. *)
Definition blank_labels (f : form) : list str :=
  (if blank (organization f) then [py "Organization"] else [])
  ++ (if blank (project f) then [py "Project"] else [])
  ++ (if blank (pat_token f) then [py "PAT Token"] else [])
  ++ (if blank (variable_group_name f) then [py "Variable Group Name"]
      else []).

(** The session once the form of the request is stored. *)
Definition saved (data : vg_request) (s : session) : session :=
  set_form_data (init_session s) (data_form data).

(** The call that resolves the project of a request. *)
Definition resolution (data : vg_request) : call :=
  GetProject (organization (data_form data)) (project (data_form data))
    (pat_token (data_form data)).

(** The call that submits the variable group of a request for the
    project identifier [project_id]. *)
Definition submission (data : vg_request) (project_id : json) : call :=
  PostVariableGroup (organization (data_form data))
    (pat_token (data_form data))
    (build_payload (project (data_form data)) project_id
       (variable_group_name (data_form data))
       (vg_description (data_form data)) (data_variables data)).

Definition is_submission (c : call) : bool :=
  match c with PostVariableGroup _ _ _ => true | GetProject _ _ _ => false end.

(** The [message] member of a structured answer, the raw body
    otherwise. *)
Definition resolve_message (r : http_response) : json :=
  match json_of r with
  | Ok (JDict m) =>
      match dict_get m (py "message") with
      | Some v => v
      | None => JStr (text r)
      end
  | _ => JStr (text r)
  end.

(** A member of the answer, [default] when it is absent. *)
Definition member (m : list (str * json)) (k : str) (default : json) : json :=
  match dict_get m k with Some v => v | None => default end.

(** [repr] of a value whose strings have neither quotes, backslashes
    nor control characters: an instance of the builtin for the
    examples. *)
Fixpoint repr_plain (x : json) : str :=
  match x with
  | JScalar (SStr s) => py "'" ++ s ++ py "'"
  | JScalar s => str_of_scalar s
  | JList l => py "[" ++ join (py ", ") (map repr_plain l) ++ py "]"
  | JDict m =>
      py "{"
      ++ join (py ", ")
           (map (fun kv => py "'" ++ fst kv ++ py "': " ++ repr_plain (snd kv))
              m)
      ++ py "}"
  end.

(** A service that gives one answer to the resolution and one to the
    submission. *)
Definition service (resolve submit : exc http_response) : remote :=
  fun c =>
    match c with
    | GetProject _ _ _ => resolve
    | PostVariableGroup _ _ _ => submit
    end.

Definition sample_form : form :=
  {| organization := py "org"; project := py "proj";
     pat_token := py "pat"; variable_group_name := py "G";
     vg_description := [] |}.

Definition sample_row : variable :=
  {| key := py "a"; value := py "1"; isSecret := false |}.

Definition sample_request : vg_request :=
  {| data_form := sample_form; data_variables := [sample_row] |}.

(** The request with the organization left empty. *)
Definition no_organization_request : vg_request :=
  {| data_form :=
       {| organization := []; project := py "proj";
          pat_token := py "pat"; variable_group_name := py "G";
          vg_description := [] |};
     data_variables := [sample_row] |}.

(** The request with a token that has a lone surrogate. *)
Definition surrogate_token_request : vg_request :=
  {| data_form :=
       {| organization := py "org"; project := py "proj";
          pat_token := py "p" ++ [55296%N]; variable_group_name := py "G";
          vg_description := [] |};
     data_variables := [sample_row] |}.

Definition empty_session : session :=
  {| variables := None; form_data := None |}.

Definition pending_session : session :=
  {| variables := Some [sample_row]; form_data := None |}.

(** The project is found: [200] with [{"id": "p1"}]. *)
Definition resolved : http_response :=
  {| status_code := 200; text := py "{id: p1}";
     json_of := Ok (JDict [(py "id", JStr (py "p1"))]) |}.

(** The project is not found: [404] with a message. *)
Definition not_found : http_response :=
  {| status_code := 404; text := py "not found";
     json_of := Ok (JDict [(py "message", JStr (py "no such project"))]) |}.

(** The group is created: [201] with
    [{"id": 7, "name": "G", "variables": {"a": 1, "b": 2}}]. *)
Definition created : http_response :=
  {| status_code := 201; text := [];
     json_of :=
       Ok (JDict [(py "id", JInt 7); (py "name", JStr (py "G"));
                  (py "variables",
                    JDict [(py "a", JInt 1); (py "b", JInt 2)])]) |}.


(** [200] with a body that is not JSON. *)
Definition created_unreadable : http_response :=
  {| status_code := 200; text := py "OK";
     json_of := Exn (py "Expecting value: line 1 column 1 (char 0)") |}.

(** The final segment of a key ends with a token followed by a line
    feed. *)
Definition ends_with_secret_token_and_newline (k : str) : bool :=
  existsb (fun t => iendswith (final_segment k) (t ++ [10%N])) SECRET_TOKENS.

(* ================================================================== *)
(** ** The secret key and the authorization header *)
(* ================================================================== *)

(** *** [load_or_create_secret] *)

(** [Path.read_text] on the characters of a file: in text mode every
    line ending (a carriage return and a line feed, or a carriage return
    alone) is read as one line feed. *)
Fixpoint read_text (content : str) : str :=
  match content with
  | [] => []
  | c :: t =>
      if (c =? 13)%N then
        match t with
        | c' :: t' =>
            if (c' =? 10)%N then 10%N :: read_text t'
            else 10%N :: read_text t
        | [] => [10%N]
        end
      else c :: read_text t
  end.

(** The function reads the variable [FLASK_SECRET_KEY] of the
    environment and the text file at [path], and may create the file.
    [environ] is the value of the variable when it is set, [file] the
    characters of the file when it exists, [token_hex] what
    [secrets.token_hex(32)] returns if it is called.  The result is the
    key and the file as the function leaves it ([write_text] writes the
    token, which has no line ending, as it is).  Reading and writing
    succeed; the mode bits that [os.chmod] sets are not part of the
    state. *)
Definition load_or_create_secret (environ : option str) (file : option str)
    (token_hex : str) : str * option str :=
  let env_key := environ in
  match env_key with
  | Some (c :: k) => (strip (c :: k), file)
  | _ =>
      match file with
      | Some content => (strip (read_text content), file)
      | None =>
          let key := token_hex in
          (key, Some key)
      end
  end.

(** A digit of [secrets.token_hex]: [0-9a-f]. *)
Definition hexdigit (c : N) : bool :=
  ((48 <=? c) && (c <=? 57) || (97 <=? c) && (c <=? 102))%N.

(** *** Reading a header back *)

(** The value of a character of the base64 alphabet. *)
Definition b64_value (c : N) : option N :=
  if ((65 <=? c) && (c <=? 90))%N then Some (c - 65)%N
  else if ((97 <=? c) && (c <=? 122))%N then Some (c - 97 + 26)%N
  else if ((48 <=? c) && (c <=? 57))%N then Some (c - 48 + 52)%N
  else if (c =? 43)%N then Some 62%N
  else if (c =? 47)%N then Some 63%N
  else None.

(** The bytes of a padded base64 text. *)
Fixpoint b64decode (s : str) : option (list N) :=
  match s with
  | [] => Some []
  | c1 :: c2 :: c3 :: c4 :: rest =>
      match b64_value c1, b64_value c2 with
      | Some v1, Some v2 =>
          let b1 := (v1 * 4 + v2 / 16)%N in
          if (c3 =? 61)%N then
            if (c4 =? 61)%N then
              match rest with [] => Some [b1] | _ => None end
            else None
          else
            match b64_value c3 with
            | Some v3 =>
                let b2 := ((v2 mod 16) * 16 + v3 / 4)%N in
                if (c4 =? 61)%N then
                  match rest with [] => Some [b1; b2] | _ => None end
                else
                  match b64_value c4, b64decode rest with
                  | Some v4, Some bs =>
                      Some (b1 :: b2 :: ((v3 mod 4) * 64 + v4)%N :: bs)
                  | _, _ => None
                  end
            | None => None
            end
      | _, _ => None
      end
  | _ => None
  end.

(** The user name and password a server reads from the header. *)
Definition credentials (header : dict str) : option str :=
  match dict_get header (py "Authorization") with
  | Some v =>
      if startswith (py "Basic ") v then
        option_map utf8_decode (b64decode (skipn 6 v))
      else None
  | None => None
  end.

(** A character of a [str]: a code point that is no surrogate, as every
    text that was decoded from UTF-8 has. *)
Definition scalar_value (c : N) : bool :=
  (c <? 1114112)%N && negb (surrogate c).


(* ================================================================== *)
(** ** Further notions *)
(* ================================================================== *)

(** The alternatives of the pattern without an underscore. *)
Definition PLAIN_TOKENS : list str :=
  map py ["secret"; "token"; "password"; "passwd"; "apikey";
          "connectionstring"; "key"].

(** The number of scalars in a document. *)
Fixpoint scalars (x : json) : nat :=
  match x with
  | JScalar _ => 1
  | JList l =>
      (fix sum (l : list json) : nat :=
         match l with [] => 0 | v :: l' => scalars v + sum l' end) l
  | JDict m =>
      (fix sum (m : list (str * json)) : nat :=
         match m with [] => 0 | (_, v) :: m' => scalars v + sum m' end) m
  end%nat.

(** What an [add] element of [appSettings] assigns, if anything. *)
Definition app_settings_entry (section_prefix : bool) (add : element)
  : list (str * str) :=
  match dict_get (attrib add) (py "key"),
        dict_get (attrib add) (py "value") with
  | Some k, Some v =>
      if truthy k then [(app_settings_key section_prefix k, v)] else []
  | _, _ => []
  end.

(** What an [add] element of [connectionStrings] assigns, if anything. *)
Definition conns_entry (section_prefix : bool) (add : element)
  : list (str * str) :=
  match dict_get (attrib add) (py "name"),
        dict_get (attrib add) (py "connectionString") with
  | Some name, Some cs =>
      if truthy name then [(conns_key section_prefix name, cs)] else []
  | _, _ => []
  end.

(** The assignments of a parse, in the order in which they are made. *)
Definition config_entries (root : element) (section_prefix : bool)
  : list (str * str) :=
  flat_map (app_settings_entry section_prefix) (app_settings_adds root)
  ++ flat_map (conns_entry section_prefix) (conns_adds root).

(** An element is one of the two sections. *)
Definition is_section (e : element) : bool :=
  str_eqb (tag e) (py "appSettings")
  || str_eqb (tag e) (py "connectionStrings").

(** The answer of [create_vg] when the submission is refused. *)
Definition refusal (resp : http_response) : response :=
  {| success := false;
     message := Some (py "Hata: " ++ str_of_int (status_code resp));
     resp_variables := None;
     error_detail :=
       Some (match json_of resp with
             | Ok body => body
             | Exn _ => JDict [(py "raw", JStr (text resp))]
             end) |}.

(* ================================================================== *)
(** * Properties *)
(* ================================================================== *)

(** ** Strings and dictionaries *)

Lemma str_eqb_eq (a b : str) : str_eqb a b = true <-> a = b.
Proof.
  revert b; induction a as [|x a IH]; intros [|y b]; simpl;
    try (split; intro; congruence).
  rewrite andb_true_iff, N.eqb_eq, IH.
  split; [intros [-> ->]; reflexivity | intros H; inversion H; auto].
Qed.

Lemma str_eqb_refl (a : str) : str_eqb a a = true.
Proof. apply str_eqb_eq; reflexivity. Qed.

Lemma str_eqb_spec (a b : str) : reflect (a = b) (str_eqb a b).
Proof.
  destruct (str_eqb a b) eqn:E; constructor.
  - apply str_eqb_eq; assumption.
  - intros H; apply str_eqb_eq in H; congruence.
Qed.

Lemma str_eqb_sym (a b : str) : str_eqb a b = str_eqb b a.
Proof.
  destruct (str_eqb_spec a b) as [->|H].
  - symmetry; apply str_eqb_refl.
  - destruct (str_eqb_spec b a); congruence.
Qed.

Lemma mem_In (k : str) (ks : list str) : mem k ks = true <-> In k ks.
Proof.
  unfold mem; rewrite existsb_exists; split.
  - intros [x [Hx E]]; apply str_eqb_eq in E; subst; assumption.
  - intros H; exists k; split; [assumption | apply str_eqb_refl].
Qed.

Lemma mem_false (k : str) (ks : list str) : mem k ks = false <-> ~ In k ks.
Proof.
  rewrite <- mem_In; destruct (mem k ks); split; congruence.
Qed.

Lemma mem_app (k : str) (a b : list str) :
  mem k (a ++ b) = mem k a || mem k b.
Proof. unfold mem; apply existsb_app. Qed.

Section DictFacts.
Variable V : Type.
Implicit Types (d : dict V) (k : str) (v : V) (l : list (str * V)).

Lemma has_key_mem d k : has_key d k = mem k (keys d).
Proof.
  unfold has_key; induction d as [|[k' v'] d IH]; simpl; [reflexivity|].
  destruct (str_eqb k k'); [reflexivity | exact IH].
Qed.

Lemma dict_get_None d k : dict_get d k = None <-> ~ In k (keys d).
Proof.
  rewrite <- mem_false, <- has_key_mem; unfold has_key.
  destruct (dict_get d k); split; congruence.
Qed.

Lemma dict_get_Some_In d k v : dict_get d k = Some v -> In (k, v) d.
Proof.
  induction d as [|[k' v'] d IH]; simpl; [discriminate|].
  destruct (str_eqb_spec k k') as [->|_].
  - intros [= ->]; left; reflexivity.
  - intros H; right; apply IH; assumption.
Qed.

Lemma dict_get_In d k v :
  NoDup (keys d) -> In (k, v) d -> dict_get d k = Some v.
Proof.
  induction d as [|[k' v'] d IH]; simpl; [intros _ []|].
  intros ND [E|Hin]; inversion ND as [|? ? Hnot ND']; subst.
  - inversion E; subst; rewrite str_eqb_refl; reflexivity.
  - destruct (str_eqb_spec k k') as [->|_].
    + exfalso; apply Hnot; change k' with (fst (k', v));
        apply in_map; assumption.
    + apply IH; assumption.
Qed.

Lemma dict_get_set d k v k' :
  dict_get (dict_set d k v) k'
  = if str_eqb k' k then Some v else dict_get d k'.
Proof.
  induction d as [|[k0 v0] d IH]; simpl.
  - reflexivity.
  - destruct (str_eqb_spec k k0) as [->|Hk]; simpl.
    + destruct (str_eqb k' k0); reflexivity.
    + rewrite IH.
      destruct (str_eqb_spec k' k0) as [->|Hk'];
        [|reflexivity].
      destruct (str_eqb_spec k0 k); [congruence | reflexivity].
Qed.

Lemma dict_set_present d k v :
  has_key d k = true -> keys (dict_set d k v) = keys d.
Proof.
  unfold has_key; induction d as [|[k0 v0] d IH]; simpl; [discriminate|].
  destruct (str_eqb k k0); simpl; [reflexivity|].
  intros H; rewrite IH; [reflexivity | exact H].
Qed.

Lemma dict_set_absent d k v :
  has_key d k = false -> dict_set d k v = d ++ [(k, v)].
Proof.
  unfold has_key; induction d as [|[k0 v0] d IH]; simpl; [reflexivity|].
  destruct (str_eqb k k0); [discriminate|].
  intros H; rewrite IH; [reflexivity | exact H].
Qed.

Lemma keys_dict_set d k v :
  keys (dict_set d k v) = if has_key d k then keys d else keys d ++ [k].
Proof.
  destruct (has_key d k) eqn:E.
  - apply dict_set_present; assumption.
  - rewrite dict_set_absent by assumption.
    unfold keys; rewrite map_app; reflexivity.
Qed.

Lemma NoDup_keys_dict_set d k v :
  NoDup (keys d) -> NoDup (keys (dict_set d k v)).
Proof.
  intros ND; rewrite keys_dict_set.
  destruct (has_key d k) eqn:E; [assumption|].
  rewrite has_key_mem in E; apply mem_false in E.
  apply NoDup_app; [assumption | repeat constructor; intros [] | ].
  intros x Hx [<-|[]]; contradiction.
Qed.

(** Two dictionaries with the same keys in the same order and the
    same value at every key are equal. *)
Lemma dict_ext (d1 d2 : dict V) :
  NoDup (keys d1) -> keys d1 = keys d2 ->
  (forall k, dict_get d1 k = dict_get d2 k) -> d1 = d2.
Proof.
  revert d2; induction d1 as [|[k1 v1] d1 IH]; intros [|[k2 v2] d2];
    simpl; try discriminate; [reflexivity|].
  intros ND [= <- Hk] Hget; inversion ND as [|? ? Hnot ND']; subst.
  assert (v1 = v2) as <-.
  { specialize (Hget k1); rewrite str_eqb_refl in Hget; congruence. }
  f_equal; apply IH; [assumption..|].
  intros k; specialize (Hget k).
  destruct (str_eqb_spec k k1) as [E|_]; [subst k|exact Hget].
  transitivity (@None V); [|symmetry];
    apply dict_get_None; [|rewrite <- Hk]; assumption.
Qed.

Lemma assign_all_app d l1 l2 :
  assign_all d (l1 ++ l2) = assign_all (assign_all d l1) l2.
Proof. unfold assign_all; apply fold_left_app. Qed.

Lemma assign_all_cons d k v l :
  assign_all d ((k, v) :: l) = assign_all (dict_set d k v) l.
Proof. reflexivity. Qed.

Lemma keys_assign_all d l :
  keys (assign_all d l) = keys d ++ new_keys (keys d) (map fst l).
Proof.
  revert d; induction l as [|[k v] l IH]; intros d.
  - simpl; rewrite app_nil_r; reflexivity.
  - rewrite assign_all_cons, IH, keys_dict_set; simpl.
    rewrite <- has_key_mem.
    destruct (has_key d k); [reflexivity|].
    rewrite <- app_assoc; reflexivity.
Qed.

Lemma NoDup_keys_assign_all d l :
  NoDup (keys d) -> NoDup (keys (assign_all d l)).
Proof.
  revert d; induction l as [|[k v] l IH]; intros d ND; simpl;
    [assumption|].
  apply IH, NoDup_keys_dict_set; assumption.
Qed.

Lemma dict_get_assign_all d l k :
  dict_get (assign_all d l) k
  = match last_assigned l k with
    | Some v => Some v
    | None => dict_get d k
    end.
Proof.
  unfold last_assigned.
  revert d; induction l as [|[k0 v0] l IH] using rev_ind; intros d.
  - reflexivity.
  - rewrite assign_all_app, rev_app_distr; simpl.
    rewrite dict_get_set.
    destruct (str_eqb k k0); [reflexivity | apply IH].
Qed.
End DictFacts.

Lemma fold_left_map (A B C : Type) (f : A -> C -> A) (g : B -> C)
    (l : list B) (a : A) :
  fold_left f (map g l) a = fold_left (fun a x => f a (g x)) l a.
Proof. revert a; induction l; simpl; auto. Qed.

Section AssignFacts.
Variable V : Type.
Implicit Types (d : dict V) (k : str) (v : V) (l : list (str * V)).

Lemma has_key_dict_set d k v k' :
  has_key (dict_set d k v) k' = str_eqb k' k || has_key d k'.
Proof.
  unfold has_key; rewrite dict_get_set.
  destruct (str_eqb k' k); reflexivity.
Qed.

(** Assigning to a key that is present rewrites its item in place. *)
Lemma dict_set_in_place d k v :
  NoDup (keys d) -> has_key d k = true ->
  dict_set d k v
  = map (fun kv => if str_eqb k (fst kv) then (fst kv, v) else kv) d.
Proof.
  unfold has_key.
  induction d as [|[k0 v0] d IH]; simpl; [discriminate|].
  intros ND H; inversion ND as [|? ? Hnot ND']; subst.
  destruct (str_eqb_spec k k0) as [E|NE].
  - subst k0; f_equal; symmetry.
    rewrite <- (map_id d) at 2; apply map_ext_in.
    intros [k1 v1] Hin; simpl.
    destruct (str_eqb_spec k k1) as [E|_]; [|reflexivity].
    subst k1; exfalso; apply Hnot.
    change k with (fst (k, v1)); apply in_map; assumption.
  - f_equal; apply IH; assumption.
Qed.

Lemma updated_nil d : map (updated (@nil (str * V))) d = d.
Proof.
  rewrite <- (map_id d) at 2; apply map_ext; intros [k v]; reflexivity.
Qed.

(** The result of a run of assignments to distinct keys: the old
    items, rewritten where a key was assigned, then the new ones. *)
Lemma assign_all_distinct d l :
  NoDup (keys d) -> NoDup (keys l) ->
  assign_all d l = map (updated l) d ++ fresh d l.
Proof.
  revert d; induction l as [|[k v] l IH]; intros d NDd NDl.
  - simpl; rewrite updated_nil, app_nil_r; reflexivity.
  - inversion NDl as [|? ? Hnot NDl']; subst.
    rewrite assign_all_cons, IH
      by (try apply NoDup_keys_dict_set; assumption).
    assert (Hl : forall kv, In kv l -> str_eqb (fst kv) k = false).
    { intros kv Hin; destruct (str_eqb_spec (fst kv) k) as [E|_];
        [|reflexivity].
      exfalso; apply Hnot; rewrite <- E; apply in_map; assumption. }
    assert (Hfresh : fresh (dict_set d k v) l = fresh d l).
    { apply filter_ext_in; intros kv Hin.
      rewrite has_key_dict_set, Hl by assumption; reflexivity. }
    assert (Hk : dict_get l k = None) by (apply dict_get_None; exact Hnot).
    rewrite Hfresh; unfold fresh at 2; simpl.
    destruct (has_key d k) eqn:E; simpl.
    + f_equal. rewrite dict_set_in_place by assumption.
      rewrite map_map; apply map_ext; intros [k1 v1]; unfold updated; simpl.
      rewrite (str_eqb_sym k1 k).
      destruct (str_eqb_spec k k1) as [E1|_]; simpl; [|reflexivity].
      subst k1; rewrite Hk; reflexivity.
    + rewrite dict_set_absent, map_app, <- app_assoc by assumption.
      f_equal; [|unfold updated; simpl; rewrite Hk; reflexivity].
      apply map_ext_in; intros [k1 v1] Hin; unfold updated; simpl.
      destruct (str_eqb_spec k1 k) as [E1|_]; [|reflexivity].
      subst k1; exfalso.
      rewrite has_key_mem in E; apply mem_false in E; apply E.
      change k with (fst (k, v1)); apply in_map; assumption.
Qed.

Lemma assign_all_nil_distinct l :
  NoDup (keys l) -> assign_all [] l = l.
Proof.
  intros ND; rewrite assign_all_distinct by (assumption || constructor).
  simpl; unfold fresh; simpl.
  induction l as [|a l IH]; simpl; [reflexivity|].
  inversion ND; subst; f_equal; apply IH; assumption.
Qed.
End AssignFacts.

Lemma filter_map_comm (A B : Type) (p : B -> bool) (g : A -> B) (l : list A) :
  filter p (map g l) = map g (filter (fun x => p (g x)) l).
Proof.
  induction l as [|a l IH]; simpl; [reflexivity|].
  destruct (p (g a)); simpl; rewrite IH; reflexivity.
Qed.

(** ** The import-merge of [load_data] *)

Lemma index_vars_assign (vars : list variable) :
  index_vars vars = assign_all [] (map by_key vars).
Proof. unfold index_vars, assign_all; rewrite fold_left_map; reflexivity. Qed.

Lemma overlay_assign (d : dict variable) (flat : dict str) :
  overlay d flat = assign_all d (map as_record flat).
Proof. unfold overlay, assign_all; rewrite fold_left_map; reflexivity. Qed.

Lemma keys_by_key (vars : list variable) :
  keys (map by_key vars) = map key vars.
Proof. unfold keys; rewrite map_map; reflexivity. Qed.

Lemma keys_as_record (flat : dict str) : keys (map as_record flat) = keys flat.
Proof. unfold keys; rewrite map_map; reflexivity. Qed.

Lemma keyed_dict_set (d : dict variable) (r : variable) :
  keyed d -> keyed (dict_set d (key r) r).
Proof.
  unfold keyed; induction d as [|[k0 r0] d IH]; simpl; intros H.
  - repeat constructor.
  - inversion H as [|? ? H0 H1]; subst; simpl in H0.
    destruct (str_eqb_spec (key r) k0) as [E|_]; constructor; auto.
Qed.

Lemma keyed_assign_all (d : dict variable) (l : list (str * variable)) :
  keyed d -> keyed l -> keyed (assign_all d l).
Proof.
  revert d; induction l as [|[k r] l IH]; intros d Hd Hl; [exact Hd|].
  inversion Hl as [|? ? H0 H1]; subst; simpl in H0; subst k.
  rewrite assign_all_cons; apply IH; [apply keyed_dict_set|]; assumption.
Qed.

Lemma keyed_by_key (vars : list variable) : keyed (map by_key vars).
Proof. induction vars; constructor; auto. Qed.

Lemma keyed_as_record (flat : dict str) : keyed (map as_record flat).
Proof. induction flat; constructor; auto. Qed.

Lemma keyed_index_vars (vars : list variable) : keyed (index_vars vars).
Proof.
  rewrite index_vars_assign; apply keyed_assign_all;
    [constructor | apply keyed_by_key].
Qed.

Lemma keyed_overlay (d : dict variable) (flat : dict str) :
  keyed d -> keyed (overlay d flat).
Proof.
  intros H; rewrite overlay_assign; apply keyed_assign_all;
    [assumption | apply keyed_as_record].
Qed.

Lemma NoDup_keys_index_vars (vars : list variable) :
  NoDup (keys (index_vars vars)).
Proof.
  rewrite index_vars_assign; apply NoDup_keys_assign_all; constructor.
Qed.

Lemma NoDup_keys_overlay (d : dict variable) (flat : dict str) :
  NoDup (keys d) -> NoDup (keys (overlay d flat)).
Proof.
  intros H; rewrite overlay_assign; apply NoDup_keys_assign_all; assumption.
Qed.

Lemma keyed_keys (d : dict variable) : keyed d -> map key (values d) = keys d.
Proof.
  unfold keyed, values, keys; induction 1 as [|[k r] d H _ IH]; simpl;
    [reflexivity|].
  simpl in H; rewrite H, IH; reflexivity.
Qed.

Lemma keyed_values (d : dict variable) : keyed d -> map by_key (values d) = d.
Proof.
  unfold keyed, values; induction 1 as [|[k r] d H _ IH]; simpl;
    [reflexivity|].
  simpl in H; rewrite IH; unfold by_key; rewrite H; reflexivity.
Qed.

(** Whatever the session held, the merged table has no key twice. *)
Lemma merge_unique_keys (existing : list variable) (incoming : dict str) :
  unique_keys (merge existing incoming).
Proof.
  unfold unique_keys, merge.
  rewrite keyed_keys by apply keyed_overlay, keyed_index_vars.
  apply NoDup_keys_overlay, NoDup_keys_index_vars.
Qed.

(** Indexing a table without repeated keys keeps it as it is. *)
Lemma index_vars_unique (vars : list variable) :
  unique_keys vars -> index_vars vars = map by_key vars.
Proof.
  intros H; rewrite index_vars_assign; apply assign_all_nil_distinct.
  rewrite keys_by_key; exact H.
Qed.

Lemma dict_get_as_record (flat : dict str) (k : str) :
  dict_get (map as_record flat) k
  = match dict_get flat k with
    | Some v => Some {| key := k; value := v; isSecret := false |}
    | None => None
    end.
Proof.
  induction flat as [|[k0 v0] flat IH]; simpl; [reflexivity|].
  destruct (str_eqb_spec k k0) as [E|_]; [subst; reflexivity | exact IH].
Qed.

Lemma merge_distinct (existing : list variable) (incoming : dict str) :
  unique_keys existing -> NoDup (keys incoming) ->
  merge existing incoming
  = map (overwritten incoming) existing
    ++ map imported
         (filter (fun kv => negb (mem (fst kv) (map key existing))) incoming).
Proof.
  intros HS HM; unfold merge.
  rewrite overlay_assign, index_vars_unique by assumption.
  rewrite assign_all_distinct
    by (rewrite ?keys_by_key, ?keys_as_record; assumption).
  unfold values; rewrite map_app; f_equal.
  - rewrite !map_map; apply map_ext; intros r; unfold updated, overwritten.
    simpl; rewrite dict_get_as_record.
    destruct (dict_get incoming (key r)); reflexivity.
  - unfold fresh; rewrite filter_map_comm, map_map; simpl.
    f_equal; apply filter_ext; intros kv.
    rewrite has_key_mem, keys_by_key; reflexivity.
Qed.

Lemma In_new_keys (seen ks : list str) (k : str) :
  In k ks -> In k (seen ++ new_keys seen ks).
Proof.
  revert seen; induction ks as [|k0 ks IH]; intros seen; simpl; [intros []|].
  intros [E|Hin].
  - subst k0; destruct (mem k seen) eqn:M.
    + apply in_or_app; left; apply mem_In; assumption.
    + apply in_or_app; right; left; reflexivity.
  - destruct (mem k0 seen) eqn:M; [apply IH; assumption|].
    specialize (IH (seen ++ [k0]) Hin).
    rewrite <- app_assoc in IH; exact IH.
Qed.

Lemma new_keys_seen (seen ks : list str) :
  (forall k, In k ks -> In k seen) -> new_keys seen ks = [].
Proof.
  induction ks as [|k0 ks IH]; simpl; intros H; [reflexivity|].
  replace (mem k0 seen) with true
    by (symmetry; apply mem_In, H; left; reflexivity).
  apply IH; intros k Hk; apply H; right; assumption.
Qed.

(** Assigning the same pairs a second time changes nothing. *)
Lemma assign_all_twice (V : Type) (d : dict V) (l : list (str * V)) :
  NoDup (keys d) -> assign_all (assign_all d l) l = assign_all d l.
Proof.
  intros ND; apply dict_ext.
  - apply NoDup_keys_assign_all, NoDup_keys_assign_all; assumption.
  - rewrite (keys_assign_all (assign_all d l) l).
    rewrite new_keys_seen; [apply app_nil_r|].
    intros k Hk; rewrite keys_assign_all; apply In_new_keys; assumption.
  - intros k; rewrite (dict_get_assign_all (assign_all d l) l).
    rewrite dict_get_assign_all.
    destruct (last_assigned l k); reflexivity.
Qed.

(** C1 (as the code has it).  For a variable table [existing] without
    repeated keys and an imported map [incoming], the import-merge
    rewrites every record whose key occurs in [incoming] at the place
    where it stands, with the imported value and with [isSecret] reset
    to false (the flag the record had is not kept), leaves the other
    records as they are, and appends a record with [isSecret = false]
    for every imported key the table did not have, in the order of the
    import.  Merging [{"k": "2"}] into
    [[{key: "k", value: "1", isSecret: true}]] gives
    [[{key: "k", value: "2", isSecret: false}]]. *)
Theorem merge_overwrites_in_place_and_resets_flag
    (existing : list variable) (incoming : dict str) :
  unique_keys existing -> NoDup (keys incoming) ->
  merge existing incoming
  = map (overwritten incoming) existing
    ++ map imported
         (filter (fun kv => negb (mem (fst kv) (map key existing))) incoming)
  /\ merge [{| key := py "k"; value := py "1"; isSecret := true |}]
           [(py "k", py "2")]
     = [{| key := py "k"; value := py "2"; isSecret := false |}].
Proof.
  intros HS HM; split; [apply merge_distinct; assumption | reflexivity].
Qed.

Lemma merge_overwrites_in_place_and_resets_flag_witness :
  merge [{| key := py "a"; value := py "1"; isSecret := true |};
         {| key := py "b"; value := py "2"; isSecret := true |}]
        [(py "c", py "9"); (py "a", py "7")]
  = [{| key := py "a"; value := py "7"; isSecret := false |};
     {| key := py "b"; value := py "2"; isSecret := true |};
     {| key := py "c"; value := py "9"; isSecret := false |}].
Proof.
  refine (proj1 (@merge_overwrites_in_place_and_resets_flag
    [{| key := py "a"; value := py "1"; isSecret := true |};
     {| key := py "b"; value := py "2"; isSecret := true |}]
    [(py "c", py "9"); (py "a", py "7")] _ _)).
  - repeat constructor; simpl; intuition discriminate.
  - repeat constructor; simpl; intuition discriminate.
Defined.

(** C1 (as the specification has it) fails: the record of key ["k"]
    that was secret is not secret after the import of [{"k": "2"}]. *)
Lemma merge_preserves_flag_counterexample :
  merge [{| key := py "k"; value := py "1"; isSecret := true |}]
        [(py "k", py "2")]
  <> [{| key := py "k"; value := py "2"; isSecret := true |}].
Proof. vm_compute; discriminate. Qed.

(** C3.  The import-merge is idempotent: merging [incoming] into the
    result of merging [incoming] into [existing] gives that result
    again, record for record and in the same order.  This holds for
    every table and every sequence of imported pairs. *)
Theorem merge_idempotent (existing : list variable) (incoming : dict str) :
  merge (merge existing incoming) incoming = merge existing incoming.
Proof.
  unfold merge.
  set (d1 := overlay (index_vars existing) incoming).
  assert (K : keyed d1) by apply keyed_overlay, keyed_index_vars.
  assert (ND : NoDup (keys d1))
    by apply NoDup_keys_overlay, NoDup_keys_index_vars.
  rewrite index_vars_unique
    by (unfold unique_keys; rewrite keyed_keys; assumption).
  rewrite keyed_values by assumption.
  f_equal; unfold d1; rewrite !overlay_assign.
  apply assign_all_twice, NoDup_keys_index_vars.
Qed.

(** ** [flatten_json] *)

(** Induction on a JSON value with the hypothesis for every element of
    a list and every member of a dictionary. *)
Lemma json_rect_nested (P : json -> Prop) :
  (forall s, P (JScalar s)) ->
  (forall l, Forall P l -> P (JList l)) ->
  (forall m, Forall (fun kv => P (snd kv)) m -> P (JDict m)) ->
  forall x, P x.
Proof.
  intros Hs Hl Hd; fix IH 1; intros [s|l|m].
  - apply Hs.
  - apply Hl; induction l as [|x l IHl]; constructor; [apply IH | exact IHl].
  - apply Hd; induction m as [|[k v] m IHm]; constructor;
      [apply IH | exact IHm].
Qed.

Lemma walk_leaves (x : json) :
  forall pk out, _walk x pk out = assign_all out (leaves x pk).
Proof.
  induction x as [s|l IH|m IH] using json_rect_nested; intros pk out.
  - reflexivity.
  - simpl. generalize 0%nat; revert out.
    induction IH as [|v l Hv _ IHl]; intros out i; [reflexivity|].
    rewrite IHl, Hv, assign_all_app; reflexivity.
  - simpl. revert out.
    induction IH as [|[k v] m Hv _ IHm]; intros out; [reflexivity|].
    simpl in Hv; rewrite IHm, Hv, assign_all_app; reflexivity.
Qed.

Lemma flatten_json_leaves (obj : json) (parent_key : str) :
  flatten_json obj parent_key = assign_all [] (leaves obj parent_key).
Proof. apply walk_leaves. Qed.

Lemma truthy_str_of_int (z : Z) : truthy (str_of_int z) = true.
Proof.
  unfold str_of_int; destruct (Z.to_int z) as [d|d]; [destruct d|];
    reflexivity.
Qed.

Lemma truthy_app (a b : str) : truthy a = true -> truthy (a ++ b) = true.
Proof. destruct a; [discriminate | reflexivity]. Qed.

Lemma new_key_truthy (pk k : str) :
  truthy pk = true -> new_key pk k = child_path false pk k.
Proof. intros H; unfold new_key, child_path; rewrite H; reflexivity. Qed.

Lemma child_path_truthy (pk k : str) :
  truthy pk = true -> truthy (child_path false pk k) = true.
Proof. intros H; apply truthy_app; exact H. Qed.

(** Below a path that is not empty the two ways of naming agree. *)
Lemma spec_leaves_inner (x : json) :
  forall path, truthy path = true -> spec_leaves false x path = leaves x path.
Proof.
  induction x as [s|l IH|m IH] using json_rect_nested; intros path Hp.
  - reflexivity.
  - cbn [spec_leaves leaves]. generalize 0%nat.
    induction IH as [|v l Hv _ IHl]; intros i; [reflexivity|].
    rewrite IHl, new_key_truthy, Hv by (try apply child_path_truthy; exact Hp).
    reflexivity.
  - cbn [spec_leaves leaves].
    induction IH as [|[k v] m Hv _ IHm]; [reflexivity|].
    cbn [snd] in Hv.
    rewrite IHm, new_key_truthy, Hv by (try apply child_path_truthy; exact Hp).
    reflexivity.
Qed.

Lemma spec_leaves_root (x : json) :
  root_names_nonempty x = true -> spec_leaves true x [] = leaves x [].
Proof.
  destruct x as [s|l|m]; simpl.
  - reflexivity.
  - intros _. generalize 0%nat.
    induction l as [|v l IHl]; intros i; [reflexivity|].
    rewrite IHl; unfold child_path, new_key; simpl.
    rewrite spec_leaves_inner by apply truthy_str_of_int; reflexivity.
  - induction m as [|[k v] m IHm]; [reflexivity|]; simpl.
    rewrite andb_true_iff; intros [Hk Hm].
    rewrite IHm by exact Hm; unfold child_path, new_key; simpl.
    rewrite spec_leaves_inner by exact Hk; reflexivity.
Qed.

(** C8 (as the code has it).  For every JSON value, [flatten_json]
    gives the mapping that holds one entry per scalar, assigned in
    document order: objects are entered with the child path
    [parent.member] and sequences with [parent.index] (zero-based,
    decimal), the member or index standing alone when the path of the
    parent is empty; the entry of a scalar is its [str], the empty
    string for null.  The path of the parent is empty at the root, and
    also inside a member of the root that is named by the empty string:
    when the root has no such member the result is the mapping of the
    specification, [spec_flatten].  An empty object or sequence adds no
    entry wherever it stands.  [{"a": {"b": 1, "c": [2, 3]}}] gives
    [{"a.b": "1", "a.c.0": "2", "a.c.1": "3"}], and [{}] and [[]] give
    the empty mapping. *)
Theorem flatten_json_entries (x : json) :
  flatten_json x [] = assign_all [] (leaves x [])
  /\ (root_names_nonempty x = true -> flatten_json x [] = spec_flatten x)
  /\ (forall pk out, _walk (JDict []) pk out = out
                     /\ _walk (JList []) pk out = out)
  /\ flatten_json nested_example []
     = [(py "a.b", py "1"); (py "a.c.0", py "2"); (py "a.c.1", py "3")]
  /\ flatten_json (JDict []) [] = []
  /\ flatten_json (JList []) [] = [].
Proof.
  split; [apply flatten_json_leaves|].
  split.
  { intros H; rewrite flatten_json_leaves; unfold spec_flatten.
    rewrite spec_leaves_root by exact H; reflexivity. }
  repeat split; reflexivity.
Qed.

Lemma flatten_json_entries_witness :
  flatten_json nested_example [] = spec_flatten nested_example.
Proof.
  exact (proj1 (proj2 (flatten_json_entries nested_example)) eq_refl).
Defined.

(** C8 (as the specification has it) fails on the document whose root
    has one member, named by the empty string, with the value
    [{"a": 1}]: the inner object is not at the root, so its member has
    the path [".a"] in the specification, and [flatten_json] stores it
    under ["a"]. *)
Lemma flatten_json_root_rule_counterexample :
  spec_flatten empty_name_example = [(py ".a", py "1")]
  /\ flatten_json empty_name_example [] = [(py "a", py "1")]
  /\ flatten_json empty_name_example [] <> spec_flatten empty_name_example.
Proof. repeat split; vm_compute; discriminate. Qed.

(** ** [is_secret_key] *)

(** *** The pattern as a test on suffixes *)

Lemma iequal_length (t u : str) :
  iequal t u = true -> List.length t = List.length u.
Proof.
  revert u; induction t as [|p t IH]; intros [|c u]; simpl;
    try discriminate; [reflexivity|].
  rewrite andb_true_iff; intros [_ H]; f_equal; apply IH; exact H.
Qed.

Lemma match_literal_Some (t s rest : str) :
  match_literal t s = Some rest
  <-> exists u, s = u ++ rest /\ iequal t u = true.
Proof.
  revert s; induction t as [|p t IH]; intros s; simpl.
  - split.
    + intros [= ->]; exists []; auto.
    + intros ([|c u] & -> & H); [reflexivity | discriminate].
  - destruct s as [|c s].
    + split; [discriminate|].
      intros ([|c u] & E & H); discriminate.
    + destruct (ignorecase_char p c) eqn:C.
      * rewrite IH; split.
        -- intros (u & -> & H); exists (c :: u); simpl; rewrite C; auto.
        -- intros ([|c' u] & E & H); [discriminate|].
           simpl in E; injection E as <- ->.
           simpl in H; rewrite C in H; exists u; auto.
      * split; [discriminate|].
        intros ([|c' u] & E & H); [discriminate|].
        simpl in E; injection E as <- ->.
        simpl in H; rewrite C in H; discriminate.
Qed.

Lemma iendswith_iff (s t : str) :
  iendswith s t = true <-> exists pre u, s = pre ++ u /\ iequal t u = true.
Proof.
  unfold iendswith; rewrite andb_true_iff, Nat.leb_le; split.
  - intros [_ H].
    exists (firstn (List.length s - List.length t) s),
           (skipn (List.length s - List.length t) s).
    split; [symmetry; apply firstn_skipn | exact H].
  - intros (pre & u & -> & H).
    pose proof (iequal_length _ _ H) as L.
    rewrite length_app, L; split; [lia|].
    replace (List.length pre + List.length u - List.length u)%nat
      with (List.length pre) by lia.
    rewrite skipn_app, skipn_all, Nat.sub_diag; exact H.
Qed.

Lemma at_dollar_iff (rest : str) :
  at_dollar rest = true <-> rest = [] \/ rest = [10%N].
Proof.
  destruct rest as [|c [|c' rest]]; simpl.
  - tauto.
  - rewrite N.eqb_eq; split; [intros ->; auto | intros [H|H]; congruence].
  - split; [discriminate | intros [H|H]; discriminate].
Qed.

Lemma iequal_newline (t w : str) :
  iequal (t ++ [10%N]) w = true
  <-> exists u, w = u ++ [10%N] /\ iequal t u = true.
Proof.
  revert w; induction t as [|p t IH]; intros w; simpl.
  - destruct w as [|c [|c' w]]; simpl.
    + split; [discriminate | intros ([|? ?] & E & _); discriminate].
    + rewrite andb_true_r; split.
      * intros H; exists []; split; [|reflexivity].
        unfold ignorecase_char in H; simpl in H.
        rewrite !orb_false_r in H; apply N.eqb_eq in H; subst; reflexivity.
      * intros ([|c0 u] & E & H); [|discriminate].
        injection E as ->; reflexivity.
    + rewrite andb_false_r; split; [discriminate|].
      intros ([|c0 u] & E & H); discriminate.
  - destruct w as [|c w].
    + split; [discriminate | intros ([|? ?] & E & _); discriminate].
    + rewrite andb_true_iff, IH; split.
      * intros (C & u & -> & H); exists (c :: u); simpl; rewrite C; auto.
      * intros ([|c0 u] & E & H); [discriminate|].
        simpl in E; injection E as <- ->.
        simpl in H; apply andb_true_iff in H as [C H]; eauto.
Qed.

Lemma search_iff (s : str) :
  SECRET_PATTERNS_search s = true
  <-> exists pre suf, s = pre ++ suf /\ SECRET_PATTERNS_match suf = true.
Proof.
  induction s as [|c s IH].
  - split; [discriminate|].
    intros (pre & suf & E & H).
    symmetry in E; apply app_eq_nil in E as [_ ->]; discriminate.
  - cbn [SECRET_PATTERNS_search]; rewrite orb_true_iff, IH; split.
    + intros [H|(pre & suf & -> & H)].
      * exists [], (c :: s); auto.
      * exists (c :: pre), suf; auto.
    + intros ([|c' pre] & suf & E & H).
      * left; simpl in E; subst suf; exact H.
      * right; simpl in E; injection E as <- ->; eauto.
Qed.

(** The search succeeds exactly on the strings that end, case ignored,
    with a token or with a token and a line feed. *)
Lemma search_suffix (s : str) :
  SECRET_PATTERNS_search s = true
  <-> exists t, In t SECRET_TOKENS
        /\ (iendswith s t = true \/ iendswith s (t ++ [10%N]) = true).
Proof.
  rewrite search_iff; unfold SECRET_PATTERNS_match; split.
  - intros (pre & suf & -> & H).
    apply existsb_exists in H as (t & Hin & H); exists t; split; [exact Hin|].
    destruct (match_literal t suf) as [rest|] eqn:M; [|discriminate].
    apply match_literal_Some in M as (u & -> & Hu).
    apply at_dollar_iff in H as [-> | ->].
    + left; apply iendswith_iff; exists pre, u; rewrite app_nil_r; auto.
    + right; apply iendswith_iff; exists pre, (u ++ [10%N]); split;
        [reflexivity | apply iequal_newline; eauto].
  - intros (t & Hin & [H|H]); apply iendswith_iff in H as (pre & u & -> & H).
    + exists pre, u; split; [reflexivity|].
      apply existsb_exists; exists t; split; [exact Hin|].
      replace (match_literal t u) with (Some (@nil N)); [reflexivity|].
      symmetry; apply match_literal_Some; exists u; rewrite app_nil_r; auto.
    + apply iequal_newline in H as (u' & -> & H).
      exists pre, (u' ++ [10%N]); split; [reflexivity|].
      apply existsb_exists; exists t; split; [exact Hin|].
      replace (match_literal t (u' ++ [10%N])) with (Some [10%N]);
        [reflexivity|].
      symmetry; apply match_literal_Some; exists u'; auto.
Qed.

(** [is_secret_key] answers true exactly when the final segment of the
    key ends with a token, or with a token and a line feed. *)
Lemma is_secret_key_suffix (k : str) :
  is_secret_key k
  = ends_with_secret_token k || ends_with_secret_token_and_newline k.
Proof.
  apply eq_true_iff_eq; rewrite orb_true_iff.
  unfold is_secret_key, ends_with_secret_token,
    ends_with_secret_token_and_newline.
  fold (last_segment 46 k); fold (last_segment 95 (last_segment 46 k)).
  fold (final_segment k); rewrite search_suffix, !existsb_exists; split.
  - intros (t & Hin & [H|H]); eauto.
  - intros [(t & Hin & H)|(t & Hin & H)]; eauto.
Qed.

(** C9 on the key ["key\n"].  The final segment of the key ends with a
    line feed, not with a token, and [is_secret_key] answers true: the
    anchor [$] of the pattern also holds before a line feed that ends
    the string.  This is the one way in which the classifier departs
    from the suffix test: for every key it answers true exactly when
    the final segment ends, case ignored, with a token, or with a token
    and a line feed.  On the two keys of the specification it answers
    as stated. *)
Theorem is_secret_key_trailing_newline :
  is_secret_key (py "key" ++ [10%N]) = true
  /\ ends_with_secret_token (py "key" ++ [10%N]) = false
  /\ (forall k,
        is_secret_key k
        = ends_with_secret_token k || ends_with_secret_token_and_newline k)
  /\ is_secret_key (py "db.connectionString") = true
  /\ is_secret_key (py "user.name") = false.
Proof.
  split; [reflexivity|]. split; [reflexivity|].
  split; [apply is_secret_key_suffix|]. split; reflexivity.
Qed.

(** ** [parse_web_config] *)

Lemma parse_web_config_folds (root : element) (section_prefix : bool) :
  parse_web_config root section_prefix
  = fold_left (conns_add section_prefix) (conns_adds root)
      (fold_left (app_settings_add section_prefix) (app_settings_adds root)
         []).
Proof.
  unfold parse_web_config, conns_adds, app_settings_adds.
  destruct (find root (py "appSettings"));
    destruct (find root (py "connectionStrings")); reflexivity.
Qed.

Lemma has_key_set_mono (V : Type) (d : dict V) (k k' : str) (v : V) :
  has_key d k' = true -> has_key (dict_set d k v) k' = true.
Proof. intros H; rewrite has_key_dict_set, H; apply orb_true_r. Qed.

Lemma app_settings_add_mono (p : bool) (out : dict str) (a : element)
    (k : str) :
  has_key out k = true -> has_key (app_settings_add p out a) k = true.
Proof.
  intros H; unfold app_settings_add.
  destruct (dict_get (attrib a) (py "key")) as [k0|]; [|exact H].
  destruct (dict_get (attrib a) (py "value")) as [v0|]; [|exact H].
  destruct (truthy k0); [apply has_key_set_mono|]; exact H.
Qed.

Lemma conns_add_mono (p : bool) (out : dict str) (a : element) (k : str) :
  has_key out k = true -> has_key (conns_add p out a) k = true.
Proof.
  intros H; unfold conns_add.
  destruct (dict_get (attrib a) (py "name")) as [k0|]; [|exact H].
  destruct (dict_get (attrib a) (py "connectionString")) as [v0|];
    [|exact H].
  destruct (truthy k0); [apply has_key_set_mono|]; exact H.
Qed.

Lemma fold_left_mono (A : Type) (step : dict str -> A -> dict str)
    (k : str) :
  (forall out a, has_key out k = true -> has_key (step out a) k = true) ->
  forall l out, has_key out k = true -> has_key (fold_left step l out) k = true.
Proof.
  intros Hstep l; induction l as [|a l IH]; intros out H; [exact H|].
  simpl; apply IH, Hstep, H.
Qed.

Lemma fold_left_emits (A : Type) (step : dict str -> A -> dict str)
    (k : str) (x : A) :
  (forall out a, has_key out k = true -> has_key (step out a) k = true) ->
  (forall out, has_key (step out x) k = true) ->
  forall l out, In x l -> has_key (fold_left step l out) k = true.
Proof.
  intros Hmono Hx l; induction l as [|a l IH]; intros out; [intros []|].
  intros [E|Hin]; simpl.
  - subst a; apply fold_left_mono; [exact Hmono | apply Hx].
  - apply IH; exact Hin.
Qed.

Lemma has_key_set_same (V : Type) (d : dict V) (k : str) (v : V) :
  has_key (dict_set d k v) k = true.
Proof. rewrite has_key_dict_set, str_eqb_refl; reflexivity. Qed.

(** C10.  An [add] element whose [key] (in [appSettings]) or [name] (in
    [connectionStrings]) attribute is the empty string leaves the
    result as it is, like an element without the attribute; an [add]
    element whose [value] or [connectionString] attribute is the empty
    string, and whose key or name is not empty, assigns the empty string
    to its key, and the result of the parse has that key.  On a document
    with the four kinds of element the parse gives the empty string
    for ["X"] and for ["N"], and nothing else. *)
Theorem parse_web_config_empty_attributes (section_prefix : bool) :
  (forall out add,
      dict_get (attrib add) (py "key") = Some [] ->
      app_settings_add section_prefix out add = out)
  /\ (forall out add,
      dict_get (attrib add) (py "name") = Some [] ->
      conns_add section_prefix out add = out)
  /\ (forall out add,
      dict_get (attrib add) (py "key") = None ->
      app_settings_add section_prefix out add = out)
  /\ (forall out add,
      dict_get (attrib add) (py "name") = None ->
      conns_add section_prefix out add = out)
  /\ (forall out add k,
      dict_get (attrib add) (py "key") = Some k -> truthy k = true ->
      dict_get (attrib add) (py "value") = Some [] ->
      app_settings_add section_prefix out add
      = dict_set out (app_settings_key section_prefix k) [])
  /\ (forall out add name,
      dict_get (attrib add) (py "name") = Some name -> truthy name = true ->
      dict_get (attrib add) (py "connectionString") = Some [] ->
      conns_add section_prefix out add
      = dict_set out (conns_key section_prefix name) [])
  /\ (forall root add k,
      In add (app_settings_adds root) ->
      dict_get (attrib add) (py "key") = Some k -> truthy k = true ->
      dict_get (attrib add) (py "value") = Some [] ->
      has_key (parse_web_config root section_prefix)
        (app_settings_key section_prefix k) = true)
  /\ (forall root add name,
      In add (conns_adds root) ->
      dict_get (attrib add) (py "name") = Some name -> truthy name = true ->
      dict_get (attrib add) (py "connectionString") = Some [] ->
      has_key (parse_web_config root section_prefix)
        (conns_key section_prefix name) = true)
  /\ parse_web_config empty_attributes_example false
     = [(py "X", []); (py "N", [])].
Proof.
  split; [|split; [|split; [|split; [|split; [|split; [|split; [|split]]]]]]].
  - intros out add H; unfold app_settings_add; rewrite H.
    destruct (dict_get (attrib add) (py "value")); reflexivity.
  - intros out add H; unfold conns_add; rewrite H.
    destruct (dict_get (attrib add) (py "connectionString")); reflexivity.
  - intros out add H; unfold app_settings_add; rewrite H; reflexivity.
  - intros out add H; unfold conns_add; rewrite H; reflexivity.
  - intros out add k Hk Tk Hv; unfold app_settings_add.
    rewrite Hk, Hv, Tk; reflexivity.
  - intros out add name Hk Tk Hv; unfold conns_add.
    rewrite Hk, Hv, Tk; reflexivity.
  - intros root add k Hin Hk Tk Hv; rewrite parse_web_config_folds.
    apply fold_left_mono; [intros; apply conns_add_mono; assumption|].
    apply fold_left_emits with (x := add);
      [intros; apply app_settings_add_mono; assumption | | exact Hin].
    intros out; unfold app_settings_add; rewrite Hk, Hv, Tk.
    apply has_key_set_same.
  - intros root add name Hin Hk Tk Hv; rewrite parse_web_config_folds.
    apply fold_left_emits with (x := add);
      [intros; apply conns_add_mono; assumption | | exact Hin].
    intros out; unfold conns_add; rewrite Hk, Hv, Tk.
    apply has_key_set_same.
  - reflexivity.
Qed.

Lemma parse_web_config_empty_attributes_witness :
  app_settings_add false [(py "A", py "1")]
    (add_element [(py "key", []); (py "value", py "Y")])
  = [(py "A", py "1")]
  /\ app_settings_add false [(py "A", py "1")]
       (add_element [(py "key", py "X"); (py "value", [])])
     = [(py "A", py "1"); (py "X", [])]
  /\ has_key (parse_web_config empty_attributes_example true)
       (py "appSettings.X") = true.
Proof.
  pose proof (parse_web_config_empty_attributes false) as H.
  pose proof (parse_web_config_empty_attributes true) as H'.
  split; [|split].
  - exact (proj1 H [(py "A", py "1")]
             (add_element [(py "key", []); (py "value", py "Y")]) eq_refl).
  - exact (proj1 (proj2 (proj2 (proj2 (proj2 H)))) [(py "A", py "1")]
             (add_element [(py "key", py "X"); (py "value", [])])
             (py "X") eq_refl eq_refl eq_refl).
  - refine (proj1 (proj2 (proj2 (proj2 (proj2 (proj2 (proj2 H'))))))
              empty_attributes_example
              (add_element [(py "key", py "X"); (py "value", [])])
              (py "X") _ eq_refl eq_refl eq_refl).
    right; left; reflexivity.
Defined.

(** ** White space *)

Lemma lstrip_nil (s : str) : lstrip s = [] <-> blank s = true.
Proof.
  unfold blank; induction s as [|c s IH]; simpl; [tauto|].
  destruct (isspace c); simpl; [exact IH | split; discriminate].
Qed.

Lemma blank_rev (s : str) : blank (rev s) = blank s.
Proof.
  unfold blank; induction s as [|c s IH]; simpl; [reflexivity|].
  rewrite forallb_app, IH; simpl; rewrite andb_true_r; apply andb_comm.
Qed.

Lemma lstrip_not_blank (s : str) :
  blank s = false -> blank (lstrip s) = false.
Proof.
  unfold blank; induction s as [|c s IH]; simpl; [discriminate|].
  destruct (isspace c) eqn:E; simpl; [exact IH | rewrite E; reflexivity].
Qed.

(** [s.strip()] is empty exactly for a blank [s]. *)
Lemma truthy_strip (s : str) : truthy (strip s) = negb (blank s).
Proof.
  destruct (blank s) eqn:B; simpl.
  - apply lstrip_nil in B as E; unfold strip; rewrite E; reflexivity.
  - unfold strip, rstrip.
    destruct (rev (lstrip (rev (lstrip s)))) as [|c t] eqn:E; [|reflexivity].
    exfalso.
    apply (f_equal (@rev N)) in E; rewrite rev_involutive in E; simpl in E.
    apply lstrip_nil in E; rewrite blank_rev in E.
    rewrite lstrip_not_blank in E by exact B; discriminate.
Qed.

(** ** The payload of [create_variable_group] *)

Lemma build_variables_from (rows : list variable) (d : dict json) :
  fold_left
    (fun variables row =>
       let key := strip (key row) in
       if truthy key then dict_set variables key (variable_entry row)
       else variables) rows d
  = assign_all d (map variables_item (filter nonblank_key rows)).
Proof.
  revert d; induction rows as [|r rows IH]; intros d; [reflexivity|].
  cbn [fold_left filter]; rewrite IH; unfold nonblank_key at 2.
  rewrite truthy_strip; destruct (blank (key r)); reflexivity.
Qed.

Lemma build_variables_assign (rows : list variable) :
  build_variables rows
  = assign_all [] (map variables_item (filter nonblank_key rows)).
Proof. apply build_variables_from. Qed.

Lemma dict_get_variables_items (l : list variable) (k : str) :
  dict_get (map variables_item l) k
  = option_map variable_entry
      (List.find (fun r => str_eqb k (strip (key r))) l).
Proof.
  induction l as [|r l IH]; simpl; [reflexivity|].
  destruct (str_eqb k (strip (key r))); [reflexivity | exact IH].
Qed.

Lemma dict_get_build_variables (rows : list variable) (k : str) :
  dict_get (build_variables rows) k
  = option_map variable_entry (last_row rows k).
Proof.
  rewrite build_variables_assign, dict_get_assign_all; unfold last_assigned.
  rewrite <- map_rev, dict_get_variables_items; unfold last_row.
  destruct (List.find _ _); reflexivity.
Qed.

(** C7 (as the code has it).  The payload has the type marker ["Vsts"],
    the group name, the description (["Created via Flask UI"] when it is
    empty) and a [variables] object.  A row whose key is empty or white
    space only adds nothing to it; every other row is stored under its
    key with the white space around it removed, as [{value}] or, for a
    row whose flag is true and only for it, [{value, isSecret: true}].
    When several rows have the same stripped key the entry is that of
    the last of them; when no two have, the object holds one entry per
    row with a key that is not blank, in the order of the rows. *)
Theorem payload_of_rows (project vg_name description : str)
    (project_id : json) (rows : list variable) :
  let payload :=
    build_payload project project_id vg_name description rows in
  json_get payload (py "type") JNone = Ok (JStr (py "Vsts"))
  /\ json_get payload (py "name") JNone = Ok (JStr vg_name)
  /\ json_get payload (py "description") JNone
     = Ok (JStr (if truthy description then description
                 else py "Created via Flask UI"))
  /\ json_get payload (py "variables") JNone
     = Ok (JDict (build_variables rows))
  /\ build_variables rows
     = assign_all [] (map variables_item (filter nonblank_key rows))
  /\ (forall k, dict_get (build_variables rows) k
                = option_map variable_entry (last_row rows k))
  /\ (forall r, variable_entry r
                = if isSecret r
                  then JDict [(py "value", JStr (value r));
                              (py "isSecret", JScalar (SBool true))]
                  else JDict [(py "value", JStr (value r))])
  /\ (NoDup (map (fun r => strip (key r)) (filter nonblank_key rows)) ->
      build_variables rows
      = map variables_item (filter nonblank_key rows)).
Proof.
  cbv zeta; repeat split.
  - apply build_variables_assign.
  - apply dict_get_build_variables.
  - intros r; unfold variable_entry; destruct (isSecret r); reflexivity.
  - intros ND; rewrite build_variables_assign.
    apply assign_all_nil_distinct.
    unfold keys; rewrite map_map; exact ND.
Qed.

Lemma payload_of_rows_witness :
  build_variables
    [{| key := py " a "; value := py "1"; isSecret := true |};
     {| key := py "  "; value := py "2"; isSecret := true |};
     {| key := py "b"; value := py "3"; isSecret := false |}]
  = [(py "a", JDict [(py "value", JStr (py "1"));
                     (py "isSecret", JScalar (SBool true))]);
     (py "b", JDict [(py "value", JStr (py "3"))])].
Proof.
  refine (proj2 (proj2 (proj2 (proj2 (proj2 (proj2 (proj2
    (@payload_of_rows [] [] [] JNone
       [{| key := py " a "; value := py "1"; isSecret := true |};
        {| key := py "  "; value := py "2"; isSecret := true |};
        {| key := py "b"; value := py "3"; isSecret := false |}]))))))) _).
  repeat constructor; simpl; intuition discriminate.
Defined.

(** C7 (as the specification has it) fails on a row with the key
    [" a"]: the key is not blank, and the payload has no entry under the
    key of the row; the entry stands under ["a"]. *)
Lemma payload_keeps_key_counterexample :
  blank (key padded_row) = false
  /\ dict_get (build_variables [padded_row]) (key padded_row) = None
  /\ dict_get (build_variables [padded_row]) (py "a")
     = Some (variable_entry padded_row).
Proof. repeat split. Qed.

(** ** Tokens that can be encoded *)

Lemma utf8_encode_char_cases (c : N) :
  ((c < 128)%N /\ utf8_encode_char c = Some [c])
  \/ ((128 <= c < 2048)%N
      /\ utf8_encode_char c = Some [192 + c / 64; 128 + c mod 64]%N)
  \/ ((55296 <= c <= 57343)%N /\ surrogate c = true
      /\ utf8_encode_char c = None)
  \/ ((2048 <= c < 65536)%N /\ surrogate c = false
      /\ utf8_encode_char c
         = Some [224 + c / 4096; 128 + (c / 64) mod 64; 128 + c mod 64]%N)
  \/ ((65536 <= c)%N
      /\ utf8_encode_char c
         = Some [240 + c / 262144; 128 + (c / 4096) mod 64;
                 128 + (c / 64) mod 64; 128 + c mod 64]%N).
Proof.
  unfold utf8_encode_char.
  destruct (N.ltb_spec c 128); [left; auto|].
  destruct (N.ltb_spec c 2048); [right; left; auto|].
  destruct (surrogate c) eqn:S.
  - right; right; left; repeat split; try reflexivity;
      unfold surrogate in S; apply andb_true_iff in S as [S1 S2];
      apply N.leb_le in S1, S2; assumption.
  - destruct (N.ltb_spec c 65536); [right; right; right; left; auto|].
    right; right; right; right; auto.
Qed.

Lemma utf8_encode_None (s : str) :
  utf8_encode s = None <-> existsb surrogate s = true.
Proof.
  induction s as [|c s IH]; cbn [utf8_encode existsb];
    [split; discriminate|].
  rewrite orb_true_iff, <- IH.
  assert (E : utf8_encode_char c = None <-> surrogate c = true).
  { assert (S : surrogate c = true <-> (55296 <= c <= 57343)%N)
      by (unfold surrogate; rewrite andb_true_iff, !N.leb_le; tauto).
    destruct (utf8_encode_char_cases c)
      as [(H & E')|[(H & E')|[(H & S' & E')|[(H & S' & E')|(H & E')]]]];
      rewrite E'.
    - split; [discriminate | rewrite S; lia].
    - split; [discriminate | rewrite S; lia].
    - tauto.
    - split; [discriminate | congruence].
    - split; [discriminate | rewrite S; lia]. }
  destruct (utf8_encode_char c) as [b1|]; destruct (utf8_encode s) as [b2|];
    split; intros H; try discriminate H;
    try (destruct H as [H|H]; [apply E in H|]; discriminate H);
    try reflexivity;
    first [left; apply E; reflexivity | right; reflexivity].
Qed.

(** A token without surrogates has a header. *)
Lemma build_auth_header_Some (pat_token : str) :
  existsb surrogate pat_token = false <->
  exists auth, build_auth_header pat_token = Some auth.
Proof.
  unfold build_auth_header.
  destruct (utf8_encode (58%N :: pat_token)) as [bs|] eqn:E.
  - split; [eauto|]; intros _.
    destruct (existsb surrogate pat_token) eqn:S; [|reflexivity].
    assert (N : utf8_encode (58%N :: pat_token) = None)
      by (apply utf8_encode_None; cbn [existsb]; rewrite S; apply orb_true_r).
    congruence.
  - apply utf8_encode_None in E; cbn [existsb] in E.
    change (surrogate 58) with false in E; cbn [orb] in E.
    split; [congruence | intros (auth & H); discriminate].
Qed.

(** ** [create_vg] *)

Lemma missing_fields_blank_labels (f : form) :
  missing_fields f = blank_labels f.
Proof.
  unfold missing_fields, blank_labels; cbn [fold_left fst snd].
  rewrite !truthy_strip.
  destruct (blank (organization f)), (blank (project f)),
    (blank (pat_token f)), (blank (variable_group_name f)); reflexivity.
Qed.

(** Running a handler: the computations are unfolded, then the cases of
    the run are taken from the inside, one test at a time. *)
Ltac run_handler :=
  cbv beta iota zeta delta
    [run_create_vg create_vg bind ret lift try_except request modify_session
     get_project_id create_variable_group request_headers];
  cbn [fst snd sess calls negb app].

Ltac break_match :=
  match goal with
  | |- context [match ?x with _ => _ end] =>
      lazymatch x with
      | context [match _ with _ => _ end] => fail
      | _ => destruct x eqn:?
      end
  end; cbn [fst snd sess calls negb app].

Lemma create_vg_missing (py_repr : json -> str) (data : vg_request)
    (s : session) (env : remote) :
  blank_labels (data_form data) <> [] ->
  run_create_vg py_repr data s env
  = (Ok (failure (py "Eksik alanlar: "
                  ++ join (py ", ") (blank_labels (data_form data)))),
     {| sess := saved data s; calls := [] |}).
Proof.
  intros H; run_handler; rewrite missing_fields_blank_labels.
  destruct (blank_labels (data_form data)); [congruence | reflexivity].
Qed.

Lemma create_vg_no_variables (py_repr : json -> str) (data : vg_request)
    (s : session) (env : remote) :
  blank_labels (data_form data) = [] -> data_variables data = [] ->
  run_create_vg py_repr data s env
  = (Ok (failure (py "En az bir değişken ekleyin.")),
     {| sess := saved data s; calls := [] |}).
Proof.
  intros H1 H2; run_handler; rewrite missing_fields_blank_labels, H1, H2.
  reflexivity.
Qed.

(** The session a run leaves: the form is stored, and the variables are
    as they were or cleared. *)
Lemma create_vg_session (py_repr : json -> str) (data : vg_request)
    (s : session) (env : remote) :
  let w := snd (run_create_vg py_repr data s env) in
  sess w = saved data s \/ sess w = set_variables (saved data s) [].
Proof. run_handler; repeat break_match; auto. Qed.

(** The calls of a run: none, or, for a request that passes the
    validation and has a token that can be encoded, the resolution
    alone or the resolution answered with [200] and a JSON object and
    then the submission for the [id] of that object. *)
Lemma create_vg_calls (py_repr : json -> str) (data : vg_request)
    (s : session) (env : remote) :
  let w := snd (run_create_vg py_repr data s env) in
  calls w = []
  \/ (blank_labels (data_form data) = [] /\ data_variables data <> []
      /\ existsb surrogate (pat_token (data_form data)) = false
      /\ (calls w = [resolution data]
          \/ exists r m1,
               env (resolution data) = Ok r /\ status_code r = 200%Z
               /\ json_of r = Ok (JDict m1)
               /\ calls w
                  = [resolution data;
                     submission data (member m1 (py "id") (JStr []))])).
Proof.
  unfold resolution, submission, member; run_handler.
  rewrite missing_fields_blank_labels.
  destruct (blank_labels (data_form data)) eqn:EB; [|left; reflexivity].
  destruct (data_variables data) eqn:EV; [left; reflexivity|].
  destruct (build_auth_header (pat_token (data_form data))) as [auth|] eqn:EA;
    [|left; reflexivity].
  right; split; [reflexivity|]; split; [discriminate|].
  split; [apply build_auth_header_Some; eauto|].
  repeat break_match; auto; right;
    match goal with
    | H : (status_code ?r =? 200)%Z = true,
      E : json_of ?r = Ok ?body,
      G : json_get ?body _ _ = Ok _ |- _ =>
        apply Z.eqb_eq in H; destruct body as [sc|l0|m1];
        try discriminate G; injection G as <-;
        exists r, m1; auto
    end.
Qed.

Lemma create_vg_resolve_failed (py_repr : json -> str) (data : vg_request)
    (s : session) (env : remote) (r : http_response) :
  blank_labels (data_form data) = [] -> data_variables data <> [] ->
  existsb surrogate (pat_token (data_form data)) = false ->
  env (resolution data) = Ok r -> status_code r <> 200%Z ->
  run_create_vg py_repr data s env
  = (Ok (failure (py "Proje bilgileri alınamadı: "
                  ++ str_of_int (status_code r) ++ py ": "
                  ++ format py_repr (resolve_message r))),
     {| sess := saved data s; calls := [resolution data] |}).
Proof.
  intros H1 H2 HA H3 H4; unfold resolution in *; run_handler.
  apply build_auth_header_Some in HA as (auth & HA).
  rewrite missing_fields_blank_labels, H1.
  destruct (data_variables data) as [|v l]; [congruence|].
  rewrite HA, H3. apply Z.eqb_neq in H4; rewrite H4.
  unfold resolve_message, json_get.
  destruct (json_of r) as [[sc|l0|m]|e]; cbn [fst snd negb];
    try reflexivity.
Qed.


Lemma blank_labels_nil (f : form) :
  blank_labels f = []
  <-> blank (organization f) = false /\ blank (project f) = false
      /\ blank (pat_token f) = false /\ blank (variable_group_name f) = false.
Proof.
  unfold blank_labels.
  destruct (blank (organization f)), (blank (project f)),
    (blank (pat_token f)), (blank (variable_group_name f)); simpl;
    split; try discriminate; intuition discriminate.
Qed.

(** C4.  When one of organization, project, PAT token and variable group
    name is blank (empty or white space only), or the variable list is
    empty, [create_vg] returns a failure and has made no remote call.
    With a blank field the message is ["Eksik alanlar: "] followed by
    the labels of the blank fields, and of no other, separated by
    [", "]; with no blank field and an empty variable list it is
    ["En az bir değişken ekleyin."].  In both cases the form of the
    request is stored in the session.  With the organization alone
    empty the message names ["Organization"] only. *)
Theorem create_vg_validates_before_calls (py_repr : json -> str)
    (data : vg_request) (s : session) (env : remote) :
  let f := data_form data in
  (blank_labels f <> [] ->
   run_create_vg py_repr data s env
   = (Ok (failure (py "Eksik alanlar: " ++ join (py ", ") (blank_labels f))),
      {| sess := saved data s; calls := [] |}))
  /\ (blank_labels f = [] -> data_variables data = [] ->
      run_create_vg py_repr data s env
      = (Ok (failure (py "En az bir değişken ekleyin.")),
         {| sess := saved data s; calls := [] |}))
  /\ (blank (organization f) = true \/ blank (project f) = true
      \/ blank (pat_token f) = true \/ blank (variable_group_name f) = true
      \/ data_variables data = [] ->
      exists msg,
        run_create_vg py_repr data s env
        = (Ok (failure msg), {| sess := saved data s; calls := [] |}))
  /\ blank_labels f
     = (if blank (organization f) then [py "Organization"] else [])
       ++ (if blank (project f) then [py "Project"] else [])
       ++ (if blank (pat_token f) then [py "PAT Token"] else [])
       ++ (if blank (variable_group_name f)
           then [py "Variable Group Name"] else [])
  /\ run_create_vg py_repr no_organization_request s env
     = (Ok (failure (py "Eksik alanlar: Organization")),
        {| sess := saved no_organization_request s; calls := [] |}).
Proof.
  cbv zeta; split; [apply create_vg_missing|].
  split; [apply create_vg_no_variables|].
  split; [|split; [reflexivity|]].
  - intros H.
    destruct (blank_labels (data_form data)) as [|l ls] eqn:E.
    + apply blank_labels_nil in E as (E1 & E2 & E3 & E4).
      destruct H as [H|[H|[H|[H|H]]]]; try congruence.
      eexists; apply create_vg_no_variables; [|exact H].
      apply blank_labels_nil; auto.
    + eexists; apply create_vg_missing; rewrite E; discriminate.
  - rewrite create_vg_missing by discriminate; reflexivity.
Qed.

Lemma create_vg_validates_before_calls_witness :
  run_create_vg repr_plain no_organization_request pending_session
    (service (Ok resolved) (Ok created))
  = (Ok (failure (py "Eksik alanlar: "
                  ++ join (py ", ")
                       (blank_labels (data_form no_organization_request)))),
     {| sess := saved no_organization_request pending_session;
        calls := [] |}).
Proof.
  refine (proj1 (@create_vg_validates_before_calls repr_plain
    no_organization_request pending_session
    (service (Ok resolved) (Ok created))) _).
  vm_compute; discriminate.
Defined.

(** C5.  In every run of [create_vg] the submission is made only after
    the resolution was answered with status [200]: the calls of a run
    are none, the resolution alone, or the resolution followed by one
    submission.  When the resolution is made and answered with another
    status, [create_vg] returns the failure whose message carries the
    status code and the [message] member of the answer (the raw body
    when the answer is not a JSON object or has no such member), and
    the resolution is the only call of the run. *)
Theorem submission_only_after_resolution (py_repr : json -> str)
    (data : vg_request) (s : session) (env : remote) :
  let out := run_create_vg py_repr data s env in
  (forall c, In c (calls (snd out)) -> is_submission c = true ->
     exists r, env (resolution data) = Ok r /\ status_code r = 200%Z)
  /\ (calls (snd out) = [] \/ calls (snd out) = [resolution data]
      \/ exists project_id,
           calls (snd out) = [resolution data; submission data project_id])
  /\ (forall r,
      calls (snd out) <> [] ->
      env (resolution data) = Ok r -> status_code r <> 200%Z ->
      out
      = (Ok (failure (py "Proje bilgileri alınamadı: "
                      ++ str_of_int (status_code r) ++ py ": "
                      ++ format py_repr (resolve_message r))),
         {| sess := saved data s; calls := [resolution data] |})).
Proof.
  cbv zeta.
  pose proof (create_vg_calls py_repr data s env) as C; cbv zeta in C.
  split; [|split].
  - intros c Hin Hc.
    destruct C as [E|(_ & _ & _ & [E|(r & m1 & Hr & Hs & _ & E)])];
      rewrite E in Hin.
    + destruct Hin.
    + destruct Hin as [<-|[]]; discriminate.
    + exists r; auto.
  - destruct C as [E|(_ & _ & _ & [E|(r & m1 & Hr & Hs & _ & E)])]; eauto.
  - intros r Hne Hr Hs.
    destruct C as [E|(H1 & H2 & HA & _)]; [contradiction|].
    apply create_vg_resolve_failed; assumption.
Qed.

Lemma submission_only_after_resolution_witness :
  run_create_vg repr_plain sample_request pending_session
    (service (Ok not_found) (Ok created))
  = (Ok (failure (py "Proje bilgileri alınamadı: 404: no such project")),
     {| sess := saved sample_request pending_session;
        calls := [GetProject (py "org") (py "proj") (py "pat")] |}).
Proof.
  refine (proj2 (proj2 (@submission_only_after_resolution repr_plain
    sample_request pending_session (service (Ok not_found) (Ok created))))
    not_found _ eq_refl _); vm_compute; discriminate.
Defined.

Lemma session_variables_init (s : session) :
  session_variables (init_session s) = session_variables s.
Proof. unfold session_variables, init_session; destruct (variables s); reflexivity. Qed.

Lemma session_variables_saved (data : vg_request) (s : session) :
  session_variables (saved data s) = session_variables s.
Proof. unfold saved; apply session_variables_init. Qed.





(** A [200] whose body cannot be read is not a success: the run ends in
    the handler of unexpected errors and the variables stay. *)
Lemma create_vg_unreadable_answer :
  run_create_vg repr_plain sample_request pending_session
    (service (Ok resolved) (Ok created_unreadable))
  = (Ok (failure (py "Beklenmeyen hata: Expecting value: line 1 column 1 (char 0)")),
     {| sess := saved sample_request pending_session;
        calls := [resolution sample_request;
                  submission sample_request (JStr (py "p1"))] |}).
Proof. vm_compute; reflexivity. Qed.

(** ** The key invariant of the variable table *)

(** What [load_data] leaves in the session: the merged table after an
    import, the table as it was after a failure. *)
Lemma load_data_variables (data : load_request) (s : session) :
  let vars := session_variables (snd (load_data data s)) in
  vars = session_variables s
  \/ exists flat, vars = merge (session_variables s) flat.
Proof.
  cbv zeta; unfold load_data.
  destruct (str_eqb (input_type data) (py "json")).
  - destruct (json_loads data) as [j|e|e]; cbn [snd].
    + right; eexists; unfold session_variables at 1; cbn.
      rewrite session_variables_init; reflexivity.
    + left; apply session_variables_init.
    + left; apply session_variables_init.
  - destruct (str_eqb (input_type data) (py "xml")).
    + destruct (fromstring data) as [root|e|e]; cbn [snd].
      * right; eexists; unfold session_variables at 1; cbn.
        rewrite session_variables_init; reflexivity.
      * left; apply session_variables_init.
      * left; apply session_variables_init.
    + left; apply session_variables_init.
Qed.

(** C2 (as the code has it).  The import-merge and the publish keep the
    keys of the session's variable table distinct: after [load_data]
    and after [create_vg] no two records share a key when none did
    before (after an import that succeeds, whatever the table was).
    The direct replacement stores the submitted list as it is: the
    table it leaves has distinct keys exactly when the submitted list
    has. *)
Theorem variable_table_keys_stay_distinct (py_repr : json -> str)
    (s : session) :
  unique_keys (session_variables s) ->
  (forall data, unique_keys (session_variables (snd (load_data data s))))
  /\ (forall data env,
        unique_keys
          (session_variables (sess (snd (run_create_vg py_repr data s env)))))
  /\ (forall vars,
        session_variables (snd (update_variables vars s)) = vars)
  /\ (forall vars,
        unique_keys (session_variables (snd (update_variables vars s)))
        <-> unique_keys vars).
Proof.
  intros H; split; [|split; [|split]].
  - intros data.
    destruct (load_data_variables data s) as [E|[flat E]]; rewrite E;
      [exact H | apply merge_unique_keys].
  - intros data env.
    destruct (create_vg_session py_repr data s env) as [E|E]; rewrite E.
    + rewrite session_variables_saved; exact H.
    + constructor.
  - reflexivity.
  - intros vars; reflexivity.
Qed.

Lemma variable_table_keys_stay_distinct_witness :
  unique_keys
    (session_variables
       (snd (load_data {| input_type := py "json";
                          json_loads := Parsed nested_example;
                          fromstring := Malformed [] |} pending_session)))
  /\ unique_keys
       (session_variables
          (sess (snd (run_create_vg repr_plain sample_request pending_session
                        (service (Ok resolved) (Ok created)))))).
Proof.
  assert (H : unique_keys (session_variables pending_session))
    by (repeat constructor; simpl; intuition discriminate).
  pose proof (@variable_table_keys_stay_distinct repr_plain pending_session H)
    as (H1 & H2 & _).
  split; [apply H1 | apply H2].
Defined.

(** C2 (as the specification has it) fails for the direct replacement:
    from the empty table, a submitted list that names a key twice is
    stored with the key twice. *)
Lemma update_variables_duplicates_counterexample :
  unique_keys (session_variables empty_session)
  /\ ~ unique_keys
         (session_variables
            (snd (update_variables [sample_row; sample_row] empty_session))).
Proof.
  split; [constructor|].
  intros H; inversion H as [|? ? Hnot _]; apply Hnot; left; reflexivity.
Qed.

(* ================================================================== *)
(** * Further properties of [app.py] *)
(* ================================================================== *)

(** ** White space, continued *)

Lemma lstrip_blank_prefix (s : str) :
  exists sp, s = sp ++ lstrip s /\ blank sp = true.
Proof.
  induction s as [|c s (sp & E & B)]; [exists []; auto|].
  simpl; destruct (isspace c) eqn:C.
  - exists (c :: sp); simpl; rewrite <- E; unfold blank in *; simpl.
    rewrite C, B; auto.
  - exists []; auto.
Qed.

Lemma lstrip_head (s : str) (c : N) (t : str) :
  lstrip s = c :: t -> isspace c = false.
Proof.
  induction s as [|c0 s IH]; simpl; [discriminate|].
  destruct (isspace c0) eqn:C; [exact IH | intros [= <- _]; exact C].
Qed.

Lemma lstrip_fixed (s : str) :
  match s with [] => True | c :: _ => isspace c = false end -> lstrip s = s.
Proof. destruct s as [|c s]; simpl; [auto | intros ->; reflexivity]. Qed.

Lemma lstrip_idempotent (s : str) : lstrip (lstrip s) = lstrip s.
Proof.
  apply lstrip_fixed; destruct (lstrip s) as [|c t] eqn:E; [exact I|].
  apply lstrip_head in E; exact E.
Qed.

(** [strip] leaves nothing to strip. *)
Lemma strip_idempotent (s : str) : strip (strip s) = strip s.
Proof.
  unfold strip at 2, rstrip.
  set (A := lstrip s); set (L := lstrip (rev A)).
  assert (HL : lstrip L = L) by apply lstrip_idempotent.
  assert (HR : lstrip (rev L) = rev L).
  { apply lstrip_fixed.
    destruct (lstrip_blank_prefix (rev A)) as (sp & E & _); fold L in E.
    apply (f_equal (@rev N)) in E; rewrite rev_involutive, rev_app_distr in E.
    destruct (rev L) as [|c t] eqn:EL; [exact I|].
    apply (lstrip_head s (t := t ++ rev sp)); fold A; rewrite E; reflexivity. }
  unfold strip, rstrip; rewrite HR, rev_involutive, HL; reflexivity.
Qed.

Lemma strip_no_space (s : str) :
  forallb (fun c => negb (isspace c)) s = true -> strip s = s.
Proof.
  intros H.
  assert (F : forall t, forallb (fun c => negb (isspace c)) t = true ->
                        lstrip t = t).
  { intros [|c t]; simpl; [reflexivity|].
    rewrite andb_true_iff; intros [C _].
    destruct (isspace c); [discriminate | reflexivity]. }
  unfold strip, rstrip; rewrite (F s H), F, rev_involutive; [reflexivity|].
  rewrite forallb_forall in *; intros x Hx; apply H, in_rev; exact Hx.
Qed.

(** ** [load_or_create_secret] *)

Lemma hexdigit_no_space (c : N) : hexdigit c = true -> isspace c = false.
Proof.
  intros H; destruct (isspace c) eqn:S; [exfalso | reflexivity].
  unfold hexdigit, isspace in *.
  repeat rewrite ?orb_true_iff, ?andb_true_iff, ?N.leb_le, ?N.eqb_eq in *.
  lia.
Qed.

(** A token of [secrets.token_hex] has no line ending to translate. *)
Lemma read_text_hex (token : str) :
  forallb hexdigit token = true -> read_text token = token.
Proof.
  induction token as [|c t IH]; [reflexivity|].
  cbn [forallb read_text]; rewrite andb_true_iff; intros [C H].
  destruct (N.eqb_spec c 13) as [->|_]; [discriminate|].
  rewrite (IH H); reflexivity.
Qed.

(** X1.  The key is stable across restarts: a second run in the same
    environment, with the file as the first run left it, returns the
    key of the first run and leaves the file as it is, whatever
    [secrets.token_hex] would give the second time. *)
Theorem secret_key_stable_across_restarts (environ file : option str)
    (token1 token2 : str) :
  forallb hexdigit token1 = true ->
  load_or_create_secret environ
    (snd (load_or_create_secret environ file token1)) token2
  = load_or_create_secret environ file token1.
Proof.
  intros H; unfold load_or_create_secret.
  destruct environ as [[|c k]|]; destruct file as [content|]; cbn [snd];
    try reflexivity;
    rewrite (read_text_hex token1 H);
    (rewrite strip_no_space; [reflexivity|]);
    rewrite forallb_forall in *; intros x Hx;
    rewrite (hexdigit_no_space x (H x Hx)); reflexivity.
Qed.

Lemma secret_key_stable_across_restarts_witness :
  load_or_create_secret None (Some (py "0a1b")) (py "ffff")
  = (py "0a1b", Some (py "0a1b")).
Proof.
  exact (@secret_key_stable_across_restarts None None (py "0a1b") (py "ffff")
           eq_refl).
Defined.

(** X2.  The key that is returned has no white space around it.  A
    variable [FLASK_SECRET_KEY] that is set to white space only is
    taken all the same: the key is then the empty string, and the file
    is neither read for a key nor created. *)
Theorem secret_key_is_stripped (environ file : option str) (token : str) :
  forallb hexdigit token = true ->
  let key := fst (load_or_create_secret environ file token) in
  strip key = key
  /\ (forall e, environ = Some e -> e <> [] -> blank e = true ->
      load_or_create_secret environ file token = ([], file)).
Proof.
  intros H; cbv zeta; split.
  - unfold load_or_create_secret.
    destruct environ as [[|c k]|]; destruct file as [content|]; cbn [fst];
      try apply strip_idempotent;
      apply strip_no_space;
      rewrite forallb_forall in *; intros x Hx;
      rewrite (hexdigit_no_space x (H x Hx)); reflexivity.
  - intros e -> Hne B; unfold load_or_create_secret.
    destruct e as [|c k]; [congruence|].
    f_equal. pose proof (truthy_strip (c :: k)) as T; rewrite B in T.
    destruct (strip (c :: k)); [reflexivity | discriminate].
Qed.

Lemma secret_key_is_stripped_witness :
  load_or_create_secret (Some (py "  ")) (Some (py "abc")) (py "00ff")
  = ([], Some (py "abc")).
Proof.
  refine (proj2 (@secret_key_is_stripped (Some (py "  ")) (Some (py "abc"))
                   (py "00ff") eq_refl) (py "  ") eq_refl _ eq_refl).
  discriminate.
Defined.

(** ** [is_secret_key], continued *)

Lemma split_nonempty (sep : N) (s : str) : split sep s <> [].
Proof.
  destruct s as [|c s]; simpl; [discriminate|].
  destruct (c =? sep)%N; [discriminate|].
  destruct (split sep s); discriminate.
Qed.

Lemma split_app (sep : N) (a b : str) :
  split sep (a ++ sep :: b) = split sep a ++ split sep b.
Proof.
  induction a as [|c a IH]; cbn [app split].
  - rewrite N.eqb_refl; reflexivity.
  - rewrite IH; destruct (c =? sep)%N; [reflexivity|].
    pose proof (split_nonempty sep a) as H.
    destruct (split sep a) as [|h r]; [congruence | reflexivity].
Qed.

Lemma last_app_nonempty (A : Type) (l1 l2 : list A) (d : A) :
  l2 <> [] -> List.last (l1 ++ l2) d = List.last l2 d.
Proof.
  intros H; induction l1 as [|x l1 IH]; [reflexivity|].
  cbn [app]; destruct (l1 ++ l2) eqn:E; [|exact IH].
  apply app_eq_nil in E as [_ E]; congruence.
Qed.

(** What stands before the last separator does not count. *)
Lemma last_segment_after (sep : N) (a b : str) :
  last_segment sep (a ++ sep :: b) = last_segment sep b.
Proof.
  unfold last_segment; rewrite split_app.
  apply last_app_nonempty, split_nonempty.
Qed.

Lemma split_no_sep (sep : N) (s : str) : ~ In sep s -> split sep s = [s].
Proof.
  induction s as [|c s IH]; intros H; [reflexivity|]; cbn [split].
  destruct (N.eqb_spec c sep) as [E|_]; [exfalso; apply H; left; exact E|].
  rewrite IH; [reflexivity | intros Hin; apply H; right; exact Hin].
Qed.

Lemma split_length_app (sep : N) (a b : str) :
  ~ In sep b ->
  List.length (split sep (a ++ b)) = List.length (split sep a).
Proof.
  intros H; induction a as [|c a IH]; cbn [app].
  - rewrite split_no_sep by exact H; reflexivity.
  - cbn [split]; destruct (c =? sep)%N; cbn [List.length]; [congruence|].
    pose proof (split_nonempty sep a) as H1.
    pose proof (split_nonempty sep (a ++ b)) as H2.
    destruct (split sep a); destruct (split sep (a ++ b)); try congruence.
    exact IH.
Qed.

(** A tail without separator stays with the last segment. *)
Lemma last_segment_app (sep : N) (a b : str) :
  ~ In sep b -> last_segment sep (a ++ b) = last_segment sep a ++ b.
Proof.
  intros H; unfold last_segment; induction a as [|c a IH]; cbn [app].
  - rewrite split_no_sep by exact H; reflexivity.
  - pose proof (split_nonempty sep a) as H1.
    pose proof (split_nonempty sep (a ++ b)) as H2.
    pose proof (@split_length_app sep a b H) as L.
    cbn [split]; destruct (c =? sep)%N.
    + destruct (split sep a) as [|h r]; [congruence|].
      destruct (split sep (a ++ b)) as [|h' r']; [congruence|].
      exact IH.
    + destruct (split sep a) as [|h [|h1 r]]; [congruence| |];
        destruct (split sep (a ++ b)) as [|h' [|h1' r']];
        try congruence; try discriminate.
      * cbn [List.last] in *; rewrite IH; reflexivity.
      * exact IH.
Qed.

Lemma last_segment_no_sep (sep : N) (s : str) :
  ~ In sep (last_segment sep s).
Proof.
  unfold last_segment.
  assert (F : Forall (fun seg => ~ In sep seg) (split sep s)).
  { induction s as [|c s IH]; cbn [split]; [repeat constructor; auto|].
    destruct (N.eqb_spec c sep) as [E|NE]; [constructor; auto|].
    destruct (split sep s) as [|h r]; [repeat constructor|].
    - intros [E|[]]; congruence.
    - inversion IH; subst; constructor; [|assumption].
      intros [E|Hin]; [congruence | contradiction]. }
  pose proof (split_nonempty sep s) as NE.
  revert F NE; generalize (split sep s); intros l F.
  induction F as [|seg l Hseg F IH]; intros NE;
    [exfalso; apply NE; reflexivity|].
  destruct l; [exact Hseg | apply IH; discriminate].
Qed.

Lemma last_segment_self (sep : N) (s : str) :
  ~ In sep s -> last_segment sep s = s.
Proof. intros H; unfold last_segment; rewrite split_no_sep by exact H; reflexivity. Qed.

(** X5.  The classification of a key is decided by what follows its
    last dot, and there by what follows the last underscore: a prefix
    that ends with a dot can be put before a key, and a prefix that ends
    with an underscore before a key without dots, and the answer stays
    the same.  So the key that [flatten_json] builds for a member is
    classified as the name of the member is. *)
Theorem is_secret_key_ignores_prefix (p k : str) :
  is_secret_key (p ++ py "." ++ k) = is_secret_key k
  /\ is_secret_key (new_key p k) = is_secret_key k
  /\ (~ In 46%N k -> is_secret_key (p ++ py "_" ++ k) = is_secret_key k).
Proof.
  assert (D : is_secret_key (p ++ py "." ++ k) = is_secret_key k).
  { unfold is_secret_key; fold (last_segment 46 (p ++ py "." ++ k)).
    fold (last_segment 46 k); change (py "." ++ k) with (46%N :: k).
    rewrite last_segment_after; reflexivity. }
  split; [exact D|].
  split; [unfold new_key; destruct (truthy p); [exact D | reflexivity]|].
  unfold is_secret_key.
  fold (last_segment 46 (p ++ py "_" ++ k)); fold (last_segment 46 k).
  intros H; change (py "_" ++ k) with (95%N :: k).
  rewrite last_segment_app, (@last_segment_self 46 k H)
    by (intros [E|Hin]; [discriminate | contradiction]).
  fold (last_segment 95 (last_segment 46 p ++ 95%N :: k)).
  fold (last_segment 95 k); rewrite last_segment_after; reflexivity.
Qed.

Lemma is_secret_key_ignores_prefix_witness :
  is_secret_key (py "db_" ++ py "_" ++ py "password")
  = is_secret_key (py "password").
Proof.
  refine (proj2 (proj2 (@is_secret_key_ignores_prefix (py "db_")
                          (py "password"))) _).
  simpl; intuition discriminate.
Defined.

Lemma ignorecase_underscore (c : N) : ignorecase_char 95 c = true -> c = 95%N.
Proof.
  unfold ignorecase_char; cbn [N.leb N.eqb N.compare Pos.compare
    Pos.compare_cont Pos.eqb andb orb].
  rewrite !orb_false_r; apply N.eqb_eq.
Qed.

Lemma iequal_underscore (t w : str) :
  iequal t w = true -> In 95%N t -> In 95%N w.
Proof.
  revert w; induction t as [|p t IH]; intros [|c w]; simpl;
    try discriminate; [intros _ []|].
  rewrite andb_true_iff; intros [C H] [E|Hin].
  - subst p; left; apply ignorecase_underscore; exact C.
  - right; apply IH; assumption.
Qed.

(** An alternative with an underscore never matches a final segment. *)
Lemma iendswith_underscore (k t : str) :
  In 95%N t -> iendswith (final_segment k) t = false.
Proof.
  intros H; destruct (iendswith (final_segment k) t) eqn:E; [|reflexivity].
  apply iendswith_iff in E as (pre & w & E & I).
  exfalso; apply (last_segment_no_sep 95 (last_segment 46 k)).
  fold (final_segment k); rewrite E; apply in_or_app; right.
  apply (@iequal_underscore t w I H).
Qed.

Lemma existsb_orb (A : Type) (f g : A -> bool) (l : list A) :
  existsb f l || existsb g l = existsb (fun x => f x || g x) l.
Proof.
  induction l as [|x l IH]; simpl; [reflexivity|].
  rewrite <- IH; destruct (f x), (g x), (existsb f l); reflexivity.
Qed.

(** X6.  The alternatives [api_key], [client_secret] and [conn_str] of
    the pattern never match, since the segment that is searched holds no
    underscore: the classifier answers as the pattern with the seven
    other alternatives would.  So a key that ends with [conn_str] is
    classified as not secret, whatever stands before. *)
Theorem is_secret_key_underscore_alternatives_dead :
  (forall k,
     is_secret_key k
     = existsb (fun t => iendswith (final_segment k) t
                         || iendswith (final_segment k) (t ++ [10%N]))
         PLAIN_TOKENS)
  /\ (forall p, is_secret_key (p ++ py "conn_str") = false).
Proof.
  split.
  - intros k; rewrite is_secret_key_suffix.
    unfold ends_with_secret_token, ends_with_secret_token_and_newline.
    rewrite existsb_orb.
    unfold SECRET_TOKENS, PLAIN_TOKENS; cbn [map existsb].
    rewrite !(@iendswith_underscore k (py "api_key")),
            !(@iendswith_underscore k (py "client_secret")),
            !(@iendswith_underscore k (py "conn_str")),
            !(@iendswith_underscore k (py "api_key" ++ [10%N])),
            !(@iendswith_underscore k (py "client_secret" ++ [10%N])),
            !(@iendswith_underscore k (py "conn_str" ++ [10%N]))
      by (vm_compute; tauto).
    reflexivity.
  - intros p; unfold is_secret_key.
    fold (last_segment 46 (p ++ py "conn_str")).
    rewrite last_segment_app by (vm_compute; intuition discriminate).
    change (py "conn_str") with (py "conn" ++ 95%N :: py "str").
    rewrite app_assoc.
    fold (last_segment 95 ((last_segment 46 p ++ py "conn") ++ 95%N :: py "str")).
    rewrite last_segment_after; vm_compute; reflexivity.
Qed.

(** ** Dictionaries, continued *)

Lemma new_keys_In (seen ks : list str) (k : str) :
  In k (new_keys seen ks) <-> In k ks /\ ~ In k seen.
Proof.
  revert seen; induction ks as [|k0 ks IH]; intros seen; simpl; [tauto|].
  destruct (mem k0 seen) eqn:M.
  - apply mem_In in M; rewrite IH; split; [tauto|].
    intros [[E|H] N]; [subst; contradiction | tauto].
  - apply mem_false in M; simpl; rewrite IH, in_app_iff; simpl; split.
    + intros [E|[H N]]; [subst; tauto | tauto].
    + intros [[E|H] N]; [tauto|].
      destruct (str_eqb_spec k0 k) as [E|NE]; [tauto|].
      right; split; [exact H | intros [H'|[H'|[]]]; tauto].
Qed.

Lemma In_keys_assign_all (V : Type) (d : dict V) (l : list (str * V))
    (k : str) :
  In k (keys (assign_all d l)) <-> In k (keys d) \/ In k (map fst l).
Proof.
  rewrite keys_assign_all, in_app_iff, new_keys_In; split; [tauto|].
  intros [H|H]; [tauto|].
  destruct (mem k (keys d)) eqn:M;
    [apply mem_In in M | apply mem_false in M]; tauto.
Qed.

Lemma length_dict_set (V : Type) (d : dict V) (k : str) (v : V) :
  (List.length d <= List.length (dict_set d k v) <= S (List.length d))%nat.
Proof.
  induction d as [|[k0 v0] d IH]; simpl; [lia|].
  destruct (str_eqb k k0); simpl; lia.
Qed.

Lemma length_assign_all (V : Type) (d : dict V) (l : list (str * V)) :
  (List.length d <= List.length (assign_all d l)
   <= List.length d + List.length l)%nat.
Proof.
  revert d; induction l as [|[k v] l IH]; intros d; [simpl; lia|].
  rewrite assign_all_cons; specialize (IH (dict_set d k v)).
  pose proof (length_dict_set d k v); simpl; lia.
Qed.

(** ** [flatten_json], continued *)

Lemma startswith_refl (s : str) : startswith s s = true.
Proof. induction s; simpl; [reflexivity | rewrite N.eqb_refl; assumption]. Qed.

Lemma startswith_app (a b s : str) :
  startswith (a ++ b) s = true -> startswith a s = true.
Proof.
  revert s; induction a as [|x a IH]; intros s; [reflexivity|].
  destruct s as [|y s]; simpl; [discriminate|].
  rewrite !andb_true_iff; intros [E H]; split; [exact E | apply IH, H].
Qed.

Lemma startswith_new_key (pk k s : str) :
  startswith (new_key pk k) s = true -> startswith pk s = true.
Proof.
  unfold new_key; destruct pk as [|c pk]; [reflexivity|]; cbn [truthy].
  apply startswith_app.
Qed.

Lemma leaves_under_parent (x : json) :
  forall pk kv, In kv (leaves x pk) -> startswith pk (fst kv) = true.
Proof.
  induction x as [s|l IH|m IH] using json_rect_nested; intros pk kv.
  - intros [<-|[]]; apply startswith_refl.
  - cbn [leaves]; generalize 0%nat.
    induction IH as [|v l Hv _ IHl]; intros i; [intros []|].
    rewrite in_app_iff; intros [H|H]; [|apply (IHl _ H)].
    apply (startswith_new_key pk (str_of_int (Z.of_nat i))), Hv, H.
  - cbn [leaves].
    induction IH as [|[k v] m Hv _ IHm]; [intros []|].
    rewrite in_app_iff; intros [H|H]; [|apply (IHm H)].
    apply (startswith_new_key pk k), Hv, H.
Qed.

Lemma length_leaves (x : json) :
  forall pk, List.length (leaves x pk) = scalars x.
Proof.
  induction x as [s|l IH|m IH] using json_rect_nested; intros pk.
  - reflexivity.
  - cbn [leaves scalars].
    match goal with
    | |- List.length (?f l 0%nat) = _ =>
        enough (G : forall i, List.length (f l i) = scalars (JList l))
          by apply G
    end.
    cbn [scalars].
    induction IH as [|v l Hv _ IHl]; intros i; [reflexivity|].
    rewrite length_app, Hv, IHl; reflexivity.
  - cbn [leaves scalars].
    induction IH as [|[k v] m Hv _ IHm]; [reflexivity|].
    rewrite length_app, Hv, IHm; reflexivity.
Qed.

(** X7.  Every key of [flatten_json obj parent_key] starts with
    [parent_key]: flattening under a parent never writes outside of
    it. *)
Theorem flatten_json_keys_under_parent (obj : json) (parent_key k : str) :
  In k (keys (flatten_json obj parent_key)) ->
  startswith parent_key k = true.
Proof.
  rewrite flatten_json_leaves; intros H.
  apply In_keys_assign_all in H as [[]|H].
  apply in_map_iff in H as (kv & <- & H).
  apply (leaves_under_parent obj parent_key kv H).
Qed.

Lemma flatten_json_keys_under_parent_witness :
  startswith (py "cfg") (py "cfg.a.c.1") = true.
Proof.
  refine (@flatten_json_keys_under_parent nested_example (py "cfg")
            (py "cfg.a.c.1") _).
  right; right; left; reflexivity.
Defined.

(** X8.  The result of [flatten_json] has at most one entry per scalar
    of the document (fewer when two scalars have the same path), and it
    is empty exactly when the document holds no scalar at all, as for
    [[[], {}]]. *)
Theorem flatten_json_size (obj : json) (parent_key : str) :
  (List.length (flatten_json obj parent_key) <= scalars obj)%nat
  /\ (flatten_json obj parent_key = [] <-> scalars obj = 0%nat).
Proof.
  rewrite flatten_json_leaves, <- (length_leaves obj parent_key).
  pose proof (length_assign_all (@nil (str * str)) (leaves obj parent_key))
    as [_ L]; simpl in L.
  split; [exact L|].
  destruct (leaves obj parent_key) as [|[k v] l] eqn:E; [simpl; tauto|].
  split; [|discriminate].
  rewrite assign_all_cons; intros H.
  pose proof (length_assign_all (dict_set [] k v) l) as [L' _].
  rewrite H in L'; simpl in L'; lia.
Qed.

(** ** [parse_web_config], continued *)

Lemma app_settings_adds_assign (p : bool) (adds : list element)
    (out : dict str) :
  fold_left (app_settings_add p) adds out
  = assign_all out (flat_map (app_settings_entry p) adds).
Proof.
  revert out; induction adds as [|a adds IH]; intros out; [reflexivity|].
  cbn [fold_left flat_map]; rewrite IH, assign_all_app; f_equal.
  unfold app_settings_add, app_settings_entry, app_settings_key.
  destruct (dict_get (attrib a) (py "key")) as [k|]; [|reflexivity].
  destruct (dict_get (attrib a) (py "value")) as [v|]; [|reflexivity].
  destruct (truthy k); reflexivity.
Qed.

Lemma conns_adds_assign (p : bool) (adds : list element) (out : dict str) :
  fold_left (conns_add p) adds out
  = assign_all out (flat_map (conns_entry p) adds).
Proof.
  revert out; induction adds as [|a adds IH]; intros out; [reflexivity|].
  cbn [fold_left flat_map]; rewrite IH, assign_all_app; f_equal.
  unfold conns_add, conns_entry, conns_key.
  destruct (dict_get (attrib a) (py "name")) as [k|]; [|reflexivity].
  destruct (dict_get (attrib a) (py "connectionString")) as [v|];
    [|reflexivity].
  destruct (truthy k); reflexivity.
Qed.

(** The parse is the run of the assignments of the two sections. *)
Lemma parse_web_config_entries (root : element) (section_prefix : bool) :
  parse_web_config root section_prefix
  = assign_all [] (config_entries root section_prefix).
Proof.
  rewrite parse_web_config_folds, app_settings_adds_assign, conns_adds_assign.
  unfold config_entries; rewrite assign_all_app; reflexivity.
Qed.

(** X9.  Last write wins: the value that [parse_web_config] returns for
    a key is that of the last [add] element that assigns the key, the
    elements of [connectionStrings] counting after those of
    [appSettings].  So the last element of [connectionStrings], when it
    has a name that is not empty and a connection string, decides the
    value of its key whatever [appSettings] holds. *)
Theorem parse_web_config_last_write_wins (root : element)
    (section_prefix : bool) :
  (forall k,
     dict_get (parse_web_config root section_prefix) k
     = last_assigned (config_entries root section_prefix) k)
  /\ (forall earlier add name cs,
        conns_adds root = earlier ++ [add] ->
        dict_get (attrib add) (py "name") = Some name ->
        truthy name = true ->
        dict_get (attrib add) (py "connectionString") = Some cs ->
        dict_get (parse_web_config root section_prefix)
          (conns_key section_prefix name) = Some cs).
Proof.
  assert (G : forall k,
            dict_get (parse_web_config root section_prefix) k
            = last_assigned (config_entries root section_prefix) k).
  { intros k; rewrite parse_web_config_entries, dict_get_assign_all.
    destruct (last_assigned _ k); reflexivity. }
  split; [exact G|].
  intros earlier add name cs E Hn Tn Hc; rewrite G.
  unfold config_entries, last_assigned; rewrite E, flat_map_app.
  cbn [flat_map]; unfold conns_entry at 2; rewrite Hn, Hc, Tn.
  rewrite app_nil_r, app_assoc, rev_app_distr; cbn [rev app dict_get].
  rewrite str_eqb_refl; reflexivity.
Qed.

Lemma parse_web_config_last_write_wins_witness :
  dict_get (parse_web_config empty_attributes_example false) (py "N")
  = Some [].
Proof.
  refine (proj2 (@parse_web_config_last_write_wins empty_attributes_example
                   false)
            [add_element [(py "name", []); (py "connectionString", py "c")]]
            (add_element [(py "name", py "N"); (py "connectionString", [])])
            (py "N") [] eq_refl eq_refl eq_refl eq_refl).
Defined.

Lemma find_app (A : Type) (f : A -> bool) (l1 l2 : list A) :
  List.find f (l1 ++ l2)
  = match List.find f l1 with
    | Some x => Some x
    | None => List.find f l2
    end.
Proof.
  induction l1 as [|x l1 IH]; simpl; [reflexivity|].
  destruct (f x); [reflexivity | exact IH].
Qed.

Lemma find_extra (t : str) (a : dict str) (cs : list element) (e : element)
    (section : str) :
  str_eqb (tag e) section = false
  \/ find (Element t a cs) section <> None ->
  find (Element t a (cs ++ [e])) section = find (Element t a cs) section.
Proof.
  unfold find; cbn [children]; rewrite find_app; cbn [List.find].
  destruct (List.find _ cs); [reflexivity|].
  intros [H|H]; [rewrite H; reflexivity | congruence].
Qed.

(** X10.  Only the first [appSettings] and the first
    [connectionStrings] child of the root are read: a further child of
    the root changes nothing when it is not one of the two sections, or
    when a section with its tag stands before it. *)
Theorem parse_web_config_reads_first_sections (t : str) (a : dict str)
    (cs : list element) (e : element) (section_prefix : bool) :
  is_section e = false \/ find (Element t a cs) (tag e) <> None ->
  parse_web_config (Element t a (cs ++ [e])) section_prefix
  = parse_web_config (Element t a cs) section_prefix.
Proof.
  intros H; unfold parse_web_config.
  assert (F : forall section,
            (section = py "appSettings" \/ section = py "connectionStrings") ->
            find (Element t a (cs ++ [e])) section
            = find (Element t a cs) section).
  { intros section Hs; apply find_extra.
    destruct (str_eqb_spec (tag e) section) as [E|NE]; [|left; reflexivity].
    right; destruct H as [H|H]; [|rewrite <- E; exact H].
    unfold is_section in H; apply orb_false_iff in H as [H1 H2].
    destruct Hs as [-> | ->]; rewrite E, str_eqb_refl in *; discriminate. }
  rewrite !F by auto; reflexivity.
Qed.

Lemma parse_web_config_reads_first_sections_witness :
  parse_web_config
    (Element (py "configuration") []
       (children empty_attributes_example
        ++ [Element (py "appSettings") []
              [add_element [(py "key", py "Z"); (py "value", py "9")]]]))
    false
  = parse_web_config empty_attributes_example false.
Proof.
  refine (@parse_web_config_reads_first_sections (py "configuration") []
            (children empty_attributes_example)
            (Element (py "appSettings") []
               [add_element [(py "key", py "Z"); (py "value", py "9")]])
            false _).
  right; discriminate.
Defined.

Lemma config_entries_keys (root : element) (p : bool) (kv : str * str) :
  In kv (config_entries root p) ->
  truthy (fst kv) = true
  /\ (p = true ->
      startswith (py "appSettings.") (fst kv) = true
      \/ startswith (py "connectionStrings.") (fst kv) = true).
Proof.
  unfold config_entries; rewrite in_app_iff, !in_flat_map.
  intros [(add & _ & H)|(add & _ & H)].
  - unfold app_settings_entry, app_settings_key in H.
    destruct (dict_get (attrib add) (py "key")) as [k|]; [|destruct H].
    destruct (dict_get (attrib add) (py "value")) as [v|]; [|destruct H].
    destruct (truthy k) eqn:T; [|destruct H].
    destruct H as [<-|[]]; cbn [fst]; destruct p;
      (split;
       [first [exact T | reflexivity]
       |intros P;
        first [discriminate P | left; reflexivity | right; reflexivity]]).
  - unfold conns_entry, conns_key in H.
    destruct (dict_get (attrib add) (py "name")) as [k|]; [|destruct H].
    destruct (dict_get (attrib add) (py "connectionString")) as [v|];
      [|destruct H].
    destruct (truthy k) eqn:T; [|destruct H].
    destruct H as [<-|[]]; cbn [fst]; destruct p;
      (split;
       [first [exact T | reflexivity]
       |intros P;
        first [discriminate P | left; reflexivity | right; reflexivity]]).
Qed.

(** X11.  No key of the result is the empty string, and with
    [section_prefix] every key starts with ["appSettings."] or with
    ["connectionStrings."], so that the two sections cannot overwrite
    each other. *)
Theorem parse_web_config_keys (root : element) (section_prefix : bool)
    (k : str) :
  In k (keys (parse_web_config root section_prefix)) ->
  truthy k = true
  /\ (section_prefix = true ->
      startswith (py "appSettings.") k = true
      \/ startswith (py "connectionStrings.") k = true).
Proof.
  rewrite parse_web_config_entries; intros H.
  apply In_keys_assign_all in H as [[]|H].
  apply in_map_iff in H as (kv & <- & H).
  apply (config_entries_keys root section_prefix kv H).
Qed.

Lemma parse_web_config_keys_witness :
  truthy (py "appSettings.X") = true.
Proof.
  refine (proj1 (@parse_web_config_keys empty_attributes_example true
                   (py "appSettings.X") _)).
  left; reflexivity.
Defined.

(** ** The import-merge, continued *)

Lemma merge_keys_dict (existing : list variable) (incoming : dict str) :
  map key (merge existing incoming)
  = keys (assign_all (assign_all [] (map by_key existing))
            (map as_record incoming)).
Proof.
  unfold merge; rewrite keyed_keys by apply keyed_overlay, keyed_index_vars.
  rewrite overlay_assign, index_vars_assign; reflexivity.
Qed.

(** X12.  An import never drops a key and adds no key of its own: the
    keys of the merged table are the keys of the table and the keys of
    the imported map.  The merged table has at most as many records as
    the table and the map together. *)
Theorem merge_keys (existing : list variable) (incoming : dict str) :
  (forall k,
     In k (map key (merge existing incoming))
     <-> In k (map key existing) \/ In k (keys incoming))
  /\ (List.length (merge existing incoming)
      <= List.length existing + List.length incoming)%nat.
Proof.
  split.
  - intros k; rewrite merge_keys_dict, !In_keys_assign_all.
    fold (keys (map by_key existing)); fold (keys (map as_record incoming)).
    rewrite keys_by_key, keys_as_record; simpl; tauto.
  - unfold merge, values; rewrite length_map, overlay_assign, index_vars_assign.
    pose proof (length_assign_all (assign_all [] (map by_key existing))
                  (map as_record incoming)) as [_ L1].
    pose proof (length_assign_all (@nil (str * variable))
                  (map by_key existing)) as [_ L2].
    rewrite !length_map in *; simpl in L2; lia.
Qed.

Lemma last_assigned_as_record (incoming : dict str) (k : str) :
  last_assigned (map as_record incoming) k
  = match last_assigned incoming k with
    | Some v => Some {| key := k; value := v; isSecret := false |}
    | None => None
    end.
Proof.
  unfold last_assigned; rewrite <- map_rev; apply dict_get_as_record.
Qed.

Lemma dict_get_rev (V : Type) (d : dict V) (k : str) :
  NoDup (keys d) -> dict_get (rev d) k = dict_get d k.
Proof.
  intros ND.
  assert (NR : NoDup (keys (rev d)))
    by (unfold keys; rewrite map_rev; apply NoDup_rev; exact ND).
  destruct (dict_get d k) as [v|] eqn:E.
  - apply dict_get_In; [exact NR|].
    apply in_rev; rewrite rev_involutive; apply dict_get_Some_In; exact E.
  - apply dict_get_None; apply dict_get_None in E.
    unfold keys in *; rewrite map_rev, <- in_rev; exact E.
Qed.

(** X13.  The imported value wins: after the import of a map that
    assigns [v] to [k], the merged table holds the record of [k] with
    the value [v] and the flag off, whatever the table held before. *)
Theorem merge_imported_value_wins (existing : list variable)
    (incoming : dict str) (k v : str) :
  NoDup (keys incoming) -> In (k, v) incoming ->
  In {| key := k; value := v; isSecret := false |} (merge existing incoming).
Proof.
  intros ND Hin; unfold merge, values.
  apply (in_map snd _ (k, {| key := k; value := v; isSecret := false |})).
  apply dict_get_Some_In.
  rewrite overlay_assign, dict_get_assign_all, last_assigned_as_record.
  unfold last_assigned; rewrite dict_get_rev by exact ND.
  rewrite (@dict_get_In _ incoming k v ND Hin); reflexivity.
Qed.

Lemma merge_imported_value_wins_witness :
  In {| key := py "a"; value := py "7"; isSecret := false |}
    (merge [{| key := py "a"; value := py "1"; isSecret := true |}]
       [(py "c", py "9"); (py "a", py "7")]).
Proof.
  refine (@merge_imported_value_wins
            [{| key := py "a"; value := py "1"; isSecret := true |}]
            [(py "c", py "9"); (py "a", py "7")] (py "a") (py "7") _ _).
  - repeat constructor; simpl; intuition discriminate.
  - right; left; reflexivity.
Defined.

Lemma new_keys_of_new_keys (acc seen ks : list str) :
  (forall x, In x acc -> In x seen) ->
  new_keys seen (new_keys acc ks) = new_keys seen ks.
Proof.
  revert acc seen; induction ks as [|k ks IH]; intros acc seen Hs;
    [reflexivity|].
  cbn [new_keys]; destruct (mem k acc) eqn:Ma.
  - apply mem_In in Ma.
    replace (mem k seen) with true by (symmetry; apply mem_In, Hs, Ma).
    apply IH; exact Hs.
  - cbn [new_keys]; destruct (mem k seen) eqn:Ms.
    + apply IH; intros x Hx; apply in_app_iff in Hx as [Hx|[<-|[]]];
        [apply Hs, Hx | apply mem_In, Ms].
    + f_equal; apply IH; intros x Hx; apply in_app_iff.
      apply in_app_iff in Hx as [Hx|Hx]; [left; apply Hs, Hx | right; exact Hx].
Qed.

(** Assigning the items of the dictionary built from [l] is assigning
    [l]. *)
Lemma assign_all_of_dict (V : Type) (d : dict V) (l : list (str * V)) :
  NoDup (keys d) -> assign_all d (assign_all [] l) = assign_all d l.
Proof.
  intros ND; apply dict_ext.
  - apply NoDup_keys_assign_all; exact ND.
  - rewrite !keys_assign_all; f_equal.
    fold (keys (assign_all [] l)); rewrite keys_assign_all; simpl.
    apply new_keys_of_new_keys; intros x [].
  - intros k; rewrite !dict_get_assign_all.
    unfold last_assigned at 1; rewrite dict_get_rev
      by (apply NoDup_keys_assign_all; constructor).
    rewrite dict_get_assign_all; simpl.
    destruct (last_assigned l k); reflexivity.
Qed.

Lemma as_record_dict_set (d : dict str) (k v : str) :
  map as_record (dict_set d k v)
  = dict_set (map as_record d) k (imported (k, v)).
Proof.
  induction d as [|[k0 v0] d IH]; simpl; [reflexivity|].
  destruct (str_eqb_spec k k0) as [E|NE]; simpl; [subst; reflexivity|].
  rewrite IH; reflexivity.
Qed.

Lemma as_record_assign_all (d l : dict str) :
  map as_record (assign_all d l)
  = assign_all (map as_record d) (map as_record l).
Proof.
  revert d; induction l as [|[k v] l IH]; intros d; [reflexivity|].
  cbn [map]; unfold as_record at 3; cbn [fst snd].
  rewrite !assign_all_cons, IH, as_record_dict_set; reflexivity.
Qed.

Lemma index_vars_values (d : dict variable) :
  keyed d -> NoDup (keys d) -> index_vars (values d) = d.
Proof.
  intros K ND; rewrite index_vars_unique
    by (unfold unique_keys; rewrite keyed_keys; assumption).
  apply keyed_values; exact K.
Qed.

(** X14.  Two imports in a row are one import of the second map laid
    over the first: merging [second] into the result of merging [first]
    gives the table that merging the dictionary [first] updated with
    [second] gives. *)
Theorem merge_twice_is_merge_of_update (existing : list variable)
    (first second : dict str) :
  NoDup (keys first) ->
  merge (merge existing first) second
  = merge existing (assign_all first second).
Proof.
  intros ND; unfold merge.
  rewrite index_vars_values
    by (first [apply keyed_overlay, keyed_index_vars
              |apply NoDup_keys_overlay, NoDup_keys_index_vars]).
  f_equal; rewrite !overlay_assign.
  rewrite <- (@assign_all_nil_distinct _ first ND) at 2.
  rewrite <- (@assign_all_app _ [] first second), as_record_assign_all.
  cbn [map]; rewrite assign_all_of_dict by apply NoDup_keys_index_vars.
  rewrite map_app, assign_all_app; reflexivity.
Qed.

Lemma merge_twice_is_merge_of_update_witness :
  merge (merge [{| key := py "a"; value := py "1"; isSecret := true |}]
           [(py "b", py "2")])
    [(py "a", py "3"); (py "b", py "4")]
  = merge [{| key := py "a"; value := py "1"; isSecret := true |}]
      (assign_all [(py "b", py "2")] [(py "a", py "3"); (py "b", py "4")]).
Proof.
  refine (@merge_twice_is_merge_of_update
            [{| key := py "a"; value := py "1"; isSecret := true |}]
            [(py "b", py "2")] [(py "a", py "3"); (py "b", py "4")] _).
  repeat constructor; simpl; intuition.
Defined.

(** ** [init_session] and [load_data], continued *)

Lemma init_session_idempotent (s : session) :
  init_session (init_session s) = init_session s.
Proof.
  unfold init_session; destruct (variables s), (form_data s); reflexivity.
Qed.

Lemma init_session_set_variables (s : session) (vars : list variable) :
  init_session (set_variables (init_session s) vars)
  = set_variables (init_session s) vars.
Proof.
  unfold init_session, set_variables; cbn [variables form_data].
  destruct (form_data s); reflexivity.
Qed.

Lemma session_variables_set_variables (s : session) (vars : list variable) :
  session_variables (set_variables s vars) = vars.
Proof. reflexivity. Qed.

Lemma merge_again (existing : list variable) (incoming : dict str) :
  merge (merge existing incoming) incoming = merge existing incoming.
Proof.
  unfold merge.
  rewrite index_vars_values
    by (first [apply keyed_overlay, keyed_index_vars
              |apply NoDup_keys_overlay, NoDup_keys_index_vars]).
  f_equal; rewrite !overlay_assign.
  apply assign_all_twice, NoDup_keys_index_vars.
Qed.

(** X15.  [load_data] is idempotent as a handler: the same request sent
    again to the session that the first call left gives the same
    response and leaves the same session, whether the import succeeds
    or fails. *)
Theorem load_data_idempotent (data : load_request) (s : session) :
  load_data data (snd (load_data data s)) = load_data data s.
Proof.
  unfold load_data.
  destruct (str_eqb (input_type data) (py "json")).
  - destruct (json_loads data) as [j|e|e]; cbn [snd].
    + rewrite init_session_set_variables, !session_variables_set_variables.
      rewrite merge_again; reflexivity.
    + rewrite init_session_idempotent; reflexivity.
    + rewrite init_session_idempotent; reflexivity.
  - destruct (str_eqb (input_type data) (py "xml")).
    + destruct (fromstring data) as [root|e|e]; cbn [snd].
      * rewrite init_session_set_variables, !session_variables_set_variables.
        rewrite merge_again; reflexivity.
      * rewrite init_session_idempotent; reflexivity.
      * rewrite init_session_idempotent; reflexivity.
    + cbn [snd]; rewrite init_session_idempotent; reflexivity.
Qed.

(** X16.  A failed import changes nothing but what [init_session] does:
    when the response of [load_data] is a failure, the session it leaves
    is the initialised session, with the variables it had, and the
    response carries no variables. *)
Theorem load_data_failure_keeps_session (data : load_request) (s : session) :
  success (fst (load_data data s)) = false ->
  snd (load_data data s) = init_session s
  /\ session_variables (snd (load_data data s)) = session_variables s
  /\ resp_variables (fst (load_data data s)) = None.
Proof.
  unfold load_data.
  destruct (str_eqb (input_type data) (py "json"));
    [destruct (json_loads data)
    |destruct (str_eqb (input_type data) (py "xml"));
       [destruct (fromstring data)|]];
    cbn [fst snd success resp_variables failure]; try discriminate;
    intros _; rewrite session_variables_init; auto.
Qed.

Lemma load_data_failure_keeps_session_witness :
  snd (load_data {| input_type := py "yaml"; json_loads := Malformed [];
                    fromstring := Malformed [] |} pending_session)
  = init_session pending_session.
Proof.
  exact (proj1 (@load_data_failure_keeps_session
                  {| input_type := py "yaml"; json_loads := Malformed [];
                     fromstring := Malformed [] |} pending_session eq_refl)).
Defined.

(** X17.  A successful import establishes the key invariant and reports
    what it stored: when the response of [load_data] is a success, the
    variables of the session it leaves have distinct keys, whatever the
    session held before (also a table with a key twice, as
    [update_variables] can leave), the response carries exactly these
    variables, and the form of the session is the initialised one. *)
Theorem load_data_success_repairs_keys (data : load_request) (s : session) :
  success (fst (load_data data s)) = true ->
  unique_keys (session_variables (snd (load_data data s)))
  /\ resp_variables (fst (load_data data s))
     = Some (session_variables (snd (load_data data s)))
  /\ form_data (snd (load_data data s)) = form_data (init_session s).
Proof.
  unfold load_data.
  destruct (str_eqb (input_type data) (py "json"));
    [destruct (json_loads data)
    |destruct (str_eqb (input_type data) (py "xml"));
       [destruct (fromstring data)|]];
    cbn [fst snd success resp_variables failure]; try discriminate;
    intros _; (split; [apply merge_unique_keys | split; reflexivity]).
Qed.

Lemma load_data_success_repairs_keys_witness :
  unique_keys
    (session_variables
       (snd (load_data {| input_type := py "json";
                          json_loads := Parsed nested_example;
                          fromstring := Malformed [] |}
               {| variables := Some [sample_row; sample_row];
                  form_data := None |}))).
Proof.
  exact (proj1 (@load_data_success_repairs_keys
                  {| input_type := py "json"; json_loads := Parsed nested_example;
                     fromstring := Malformed [] |}
                  {| variables := Some [sample_row; sample_row];
                     form_data := None |} eq_refl)).
Defined.

(** ** The payload, continued *)

Lemma filter_length (A : Type) (f : A -> bool) (l : list A) :
  (List.length (filter f l) <= List.length l)%nat.
Proof. induction l as [|x l IH]; simpl; [lia | destruct (f x); simpl; lia]. Qed.

(** X18.  The keys of the [variables] object are clean: no key occurs
    twice, every key is the stripped key of a row, is not empty and has
    no white space around it, and there are at most as many entries as
    rows. *)
Theorem payload_keys_are_clean (rows : list variable) :
  NoDup (keys (build_variables rows))
  /\ (List.length (build_variables rows) <= List.length rows)%nat
  /\ (forall k, In k (keys (build_variables rows)) ->
        truthy k = true /\ strip k = k
        /\ exists row, In row rows /\ k = strip (key row)).
Proof.
  rewrite build_variables_assign; split; [|split].
  - apply NoDup_keys_assign_all; constructor.
  - pose proof (length_assign_all (@nil (str * json))
                  (map variables_item (filter nonblank_key rows))) as [_ L].
    pose proof (filter_length nonblank_key rows).
    rewrite length_map in L; simpl in L; lia.
  - intros k H; apply In_keys_assign_all in H as [[]|H].
    rewrite map_map in H; apply in_map_iff in H as (row & <- & H).
    apply filter_In in H as [Hin Hb]; cbn [variables_item fst].
    split; [rewrite truthy_strip; exact Hb|].
    split; [apply strip_idempotent | eauto].
Qed.

Lemma build_variables_all_blank (rows : list variable) :
  forallb (fun row => blank (key row)) rows = true ->
  build_variables rows = [].
Proof.
  intros H; rewrite build_variables_assign.
  replace (filter nonblank_key rows) with (@nil variable); [reflexivity|].
  symmetry; induction rows as [|r rows IH]; [reflexivity|].
  cbn [forallb] in H; apply andb_true_iff in H as [B H].
  cbn [filter]; unfold nonblank_key at 1; rewrite B; apply IH, H.
Qed.

(** ** [create_vg], continued *)

(** The run up to the submission: for a request that passes the
    validation, when the resolution is answered with [200] and a JSON
    object, both calls are made. *)
Lemma create_vg_submits (py_repr : json -> str) (data : vg_request)
    (s : session) (env : remote) (r1 : http_response)
    (m1 : list (str * json)) :
  blank_labels (data_form data) = [] -> data_variables data <> [] ->
  existsb surrogate (pat_token (data_form data)) = false ->
  env (resolution data) = Ok r1 -> status_code r1 = 200%Z ->
  json_of r1 = Ok (JDict m1) ->
  calls (snd (run_create_vg py_repr data s env))
  = [resolution data; submission data (member m1 (py "id") (JStr []))].
Proof.
  intros H1 H2 HA H3 H4 H5.
  unfold resolution, submission, member in *; run_handler.
  apply build_auth_header_Some in HA as (auth & HA).
  rewrite missing_fields_blank_labels, H1.
  destruct (data_variables data) as [|v l] eqn:Ev; [congruence|].
  rewrite HA, H3, H4, H5; cbn [Z.eqb Pos.eqb json_get fst snd negb].
  repeat break_match; reflexivity.
Qed.

(** X19.  A variable table whose rows all have blank keys passes the
    validation (it is not empty), and, when the token can be encoded
    for the authorization header and the resolution is answered with
    [200] and a JSON object, the group is submitted with an empty
    [variables] object. *)
Theorem create_vg_submits_blank_rows (py_repr : json -> str)
    (data : vg_request) (s : session) (env : remote) (r1 : http_response)
    (m1 : list (str * json)) :
  blank_labels (data_form data) = [] -> data_variables data <> [] ->
  existsb surrogate (pat_token (data_form data)) = false ->
  forallb (fun row => blank (key row)) (data_variables data) = true ->
  env (resolution data) = Ok r1 -> status_code r1 = 200%Z ->
  json_of r1 = Ok (JDict m1) ->
  exists payload,
    calls (snd (run_create_vg py_repr data s env))
    = [resolution data;
       PostVariableGroup (organization (data_form data))
         (pat_token (data_form data)) payload]
    /\ json_get payload (py "variables") JNone = Ok (JDict []).
Proof.
  intros H1 H2 HA HB H3 H4 H5.
  rewrite (create_vg_submits py_repr data s env H1 H2 HA H3 H4 H5).
  unfold submission; eexists; split; [reflexivity|].
  unfold build_payload; rewrite (build_variables_all_blank _ HB).
  reflexivity.
Qed.

Lemma create_vg_submits_blank_rows_witness :
  exists payload,
    calls (snd (run_create_vg repr_plain
                  {| data_form := sample_form;
                     data_variables :=
                       [{| key := py "  "; value := py "v";
                           isSecret := false |}] |}
                  pending_session (service (Ok resolved) (Ok created))))
    = [GetProject (py "org") (py "proj") (py "pat");
       PostVariableGroup (py "org") (py "pat") payload]
    /\ json_get payload (py "variables") JNone = Ok (JDict []).
Proof.
  refine (@create_vg_submits_blank_rows repr_plain
            {| data_form := sample_form;
               data_variables :=
                 [{| key := py "  "; value := py "v"; isSecret := false |}] |}
            pending_session (service (Ok resolved) (Ok created)) resolved
            [(py "id", JStr (py "p1"))] eq_refl _ eq_refl eq_refl eq_refl
            eq_refl eq_refl).
  discriminate.
Defined.

(** X20.  No exception escapes [create_vg]: every run returns a
    response, also when a request raises or a body cannot be read, and
    every run leaves the form of the request in the session. *)
Theorem create_vg_always_answers (py_repr : json -> str) (data : vg_request)
    (s : session) (env : remote) :
  (exists resp, fst (run_create_vg py_repr data s env) = Ok resp)
  /\ form_data (sess (snd (run_create_vg py_repr data s env)))
     = Some (data_form data)
  /\ variables (sess (snd (run_create_vg py_repr data s env))) <> None.
Proof.
  split.
  - run_handler; repeat break_match; eauto.
  - destruct (create_vg_session py_repr data s env) as [E|E]; rewrite E;
      unfold saved, set_variables, set_form_data, init_session;
      cbn [form_data variables]; split; try reflexivity;
      destruct (variables s); discriminate.
Qed.

(** X21.  The variables of the session are cleared by a success and by
    nothing else: when the response is a failure the session keeps the
    variables it had, and when it is a success the variables are empty
    and the run has made the resolution and the submission. *)
Theorem create_vg_clears_only_on_success (py_repr : json -> str)
    (data : vg_request) (s : session) (env : remote) (resp : response) :
  fst (run_create_vg py_repr data s env) = Ok resp ->
  (success resp = false ->
   session_variables (sess (snd (run_create_vg py_repr data s env)))
   = session_variables s)
  /\ (success resp = true ->
      session_variables (sess (snd (run_create_vg py_repr data s env))) = []
      /\ exists project_id,
           calls (snd (run_create_vg py_repr data s env))
           = [resolution data; submission data project_id]).
Proof.
  unfold resolution, submission; run_handler.
  rewrite <- (session_variables_init s).
  repeat break_match; intros [= <-]; cbn [success failure];
    (split; intros S; try discriminate S; try reflexivity);
    (split; [reflexivity|]); eexists;
    repeat match goal with
           | H : data_variables data = _ |- _ => rewrite H
           end;
    reflexivity.
Qed.

Lemma create_vg_clears_only_on_success_witness :
  session_variables
    (sess (snd (run_create_vg repr_plain sample_request pending_session
                  (service (Ok not_found) (Ok created)))))
  = session_variables pending_session.
Proof.
  exact (proj1 (@create_vg_clears_only_on_success repr_plain sample_request
                  pending_session (service (Ok not_found) (Ok created))
                  (failure (py "Proje bilgileri alınamadı: 404: no such project"))
                  eq_refl) eq_refl).
Defined.

(** X22.  What is published is the variable list of the request, not
    the table of the session: the response and the calls of a run do
    not depend on the session it runs in. *)
Theorem create_vg_ignores_session_table (py_repr : json -> str)
    (data : vg_request) (s s' : session) (env : remote) :
  fst (run_create_vg py_repr data s env)
  = fst (run_create_vg py_repr data s' env)
  /\ calls (snd (run_create_vg py_repr data s env))
     = calls (snd (run_create_vg py_repr data s' env)).
Proof. run_handler; repeat break_match; split; reflexivity. Qed.

(** X23.  For a request that passes the validation and whose token can
    be encoded for the authorization header: when the resolution is
    answered with [200] and a JSON object without an [id], the run goes
    on, and the group is submitted with the empty string as project
    identifier. *)
Theorem create_vg_submits_without_project_id (py_repr : json -> str)
    (data : vg_request) (s : session) (env : remote) (r1 : http_response)
    (m1 : list (str * json)) :
  blank_labels (data_form data) = [] -> data_variables data <> [] ->
  existsb surrogate (pat_token (data_form data)) = false ->
  env (resolution data) = Ok r1 -> status_code r1 = 200%Z ->
  json_of r1 = Ok (JDict m1) -> dict_get m1 (py "id") = None ->
  calls (snd (run_create_vg py_repr data s env))
  = [resolution data; submission data (JStr [])].
Proof.
  intros H1 H2 HA H3 H4 H5 H6.
  rewrite (create_vg_submits py_repr data s env H1 H2 HA H3 H4 H5).
  unfold member; rewrite H6; reflexivity.
Qed.

Lemma create_vg_submits_without_project_id_witness :
  calls (snd (run_create_vg repr_plain sample_request pending_session
                (service (Ok {| status_code := 200; text := py "{}";
                               json_of := Ok (JDict []) |}) (Ok created))))
  = [resolution sample_request; submission sample_request (JStr [])].
Proof.
  refine (@create_vg_submits_without_project_id repr_plain sample_request
            pending_session _ {| status_code := 200; text := py "{}";
                                 json_of := Ok (JDict []) |} []
            eq_refl _ eq_refl eq_refl eq_refl eq_refl eq_refl).
  discriminate.
Defined.

(** X24.  For a request that passes the validation and whose token can
    be encoded for the authorization header: when the submission is
    answered with a status other than [200] and [201], the response is
    the failure ["Hata: <status>"] with the body of the answer as
    detail (the raw text under [raw] when the body is not JSON), both
    calls were made, and the session keeps its variables. *)
Theorem create_vg_submission_refused (py_repr : json -> str)
    (data : vg_request) (s : session) (env : remote)
    (r1 r2 : http_response) (m1 : list (str * json)) :
  blank_labels (data_form data) = [] -> data_variables data <> [] ->
  existsb surrogate (pat_token (data_form data)) = false ->
  env (resolution data) = Ok r1 -> status_code r1 = 200%Z ->
  json_of r1 = Ok (JDict m1) ->
  env (submission data (member m1 (py "id") (JStr []))) = Ok r2 ->
  status_code r2 <> 200%Z -> status_code r2 <> 201%Z ->
  run_create_vg py_repr data s env
  = (Ok (refusal r2),
     {| sess := saved data s;
        calls := [resolution data;
                  submission data (member m1 (py "id") (JStr []))] |}).
Proof.
  intros H1 H2 HA H3 H4 H5 H6 H7 H8.
  unfold resolution, submission, member, refusal in *; run_handler.
  apply build_auth_header_Some in HA as (auth & HA).
  rewrite missing_fields_blank_labels, H1.
  destruct (data_variables data) as [|v l] eqn:Ev; [congruence|].
  rewrite HA, H3, H4, H5; cbn [Z.eqb Pos.eqb json_get fst snd negb].
  rewrite H6; cbn [fst snd].
  apply Z.eqb_neq in H7, H8; rewrite H7, H8; cbn [orb].
  destruct (json_of r2); reflexivity.
Qed.

Lemma create_vg_submission_refused_witness :
  run_create_vg repr_plain sample_request pending_session
    (service (Ok resolved)
       (Ok {| status_code := 401; text := py "denied";
              json_of := Exn (py "Expecting value") |}))
  = (Ok {| success := false; message := Some (py "Hata: 401");
           resp_variables := None;
           error_detail := Some (JDict [(py "raw", JStr (py "denied"))]) |},
     {| sess := saved sample_request pending_session;
        calls := [resolution sample_request;
                  submission sample_request (JStr (py "p1"))] |}).
Proof.
  refine (@create_vg_submission_refused repr_plain sample_request
            pending_session _ resolved
            {| status_code := 401; text := py "denied";
               json_of := Exn (py "Expecting value") |}
            [(py "id", JStr (py "p1"))] eq_refl _ eq_refl eq_refl eq_refl
            eq_refl eq_refl _ _); discriminate.
Defined.



(** A token with a lone surrogate: the header cannot be built, the run
    ends with the text of the [UnicodeEncodeError] and without a call. *)
Lemma create_vg_surrogate_token (env : remote) :
  run_create_vg repr_plain surrogate_token_request pending_session env
  = (Ok (failure (py "Beklenmeyen hata: 'utf-8' codec can't encode character '\ud800' in position 2: surrogates not allowed")),
     {| sess := saved surrogate_token_request pending_session;
        calls := [] |}).
Proof. vm_compute; reflexivity. Qed.

(** ** Empty imports and the initial session *)

Lemma merge_nothing (existing : list variable) :
  unique_keys existing -> merge existing [] = existing.
Proof.
  intros H; rewrite merge_distinct by (exact H || constructor).
  cbn [filter map]; rewrite app_nil_r.
  rewrite <- (map_id existing) at 2; apply map_ext; reflexivity.
Qed.

Lemma flatten_json_no_scalars (obj : json) (parent_key : str) :
  scalars obj = 0%nat -> flatten_json obj parent_key = [].
Proof.
  intros H; rewrite flatten_json_leaves.
  pose proof (length_leaves obj parent_key) as L; rewrite H in L.
  destruct (leaves obj parent_key); [reflexivity | discriminate].
Qed.

(** X26.  Importing a JSON document without scalars (as [{}] or [[]])
    is a success that reads no key and leaves a table with distinct
    keys as it is. *)
Theorem load_data_empty_document (data : load_request) (s : session)
    (json_data : json) :
  input_type data = py "json" -> json_loads data = Parsed json_data ->
  scalars json_data = 0%nat -> unique_keys (session_variables s) ->
  fst (load_data data s)
  = {| success := true; message := Some (py "JSON: 0 anahtar okundu.");
       resp_variables := Some (session_variables s);
       error_detail := None |}
  /\ session_variables (snd (load_data data s)) = session_variables s.
Proof.
  intros H1 H2 H3 H4; unfold load_data; rewrite H1, H2.
  change (str_eqb (py "json") (py "json")) with true; cbv iota.
  rewrite (flatten_json_no_scalars json_data [] H3).
  cbn [fst snd]; rewrite !session_variables_set_variables.
  rewrite session_variables_init, merge_nothing by exact H4.
  split; reflexivity.
Qed.

Lemma load_data_empty_document_witness :
  session_variables
    (snd (load_data {| input_type := py "json";
                       json_loads := Parsed (JList [JList []; JDict []]);
                       fromstring := Malformed [] |} pending_session))
  = session_variables pending_session.
Proof.
  refine (proj2 (@load_data_empty_document
                   {| input_type := py "json";
                      json_loads := Parsed (JList [JList []; JDict []]);
                      fromstring := Malformed [] |} pending_session
                   (JList [JList []; JDict []]) eq_refl eq_refl eq_refl _)).
  repeat constructor; simpl; intuition.
Defined.

(** X27.  [init_session] fills what is missing and overwrites nothing:
    after it both entries of the session are present, the variables and
    a form that was there are kept, and a second call changes
    nothing. *)
Theorem init_session_fills_only (s : session) :
  init_session (init_session s) = init_session s
  /\ variables (init_session s) = Some (session_variables s)
  /\ form_data (init_session s) <> None
  /\ (forall f, form_data s = Some f -> form_data (init_session s) = Some f).
Proof.
  split; [apply init_session_idempotent|].
  unfold init_session, session_variables; cbn [variables form_data].
  split; [destruct (variables s); reflexivity|].
  split; [destruct (form_data s); discriminate|].
  intros f ->; reflexivity.
Qed.

(** ** [build_auth_header] *)

Ltac Zify.zify_post_hook ::= Z.to_euclidean_division_equations.

Lemma b64_value_char (n : N) : (n < 64)%N -> b64_value (b64_char n) = Some n.
Proof.
  intros H; unfold b64_char, b64_value.
  repeat match goal with
         | |- context [(?a <? ?b)%N] => destruct (N.ltb_spec a b)
         | |- context [(?a <=? ?b)%N] => destruct (N.leb_spec a b)
         | |- context [(?a =? ?b)%N] => destruct (N.eqb_spec a b)
         end; cbn [andb]; try lia; f_equal; lia.
Qed.

Lemma b64_char_not_pad (n : N) : (n < 64)%N -> (b64_char n =? 61)%N = false.
Proof.
  intros H; apply N.eqb_neq; unfold b64_char.
  repeat match goal with
         | |- context [(?a <? ?b)%N] => destruct (N.ltb_spec a b)
         | |- context [(?a =? ?b)%N] => destruct (N.eqb_spec a b)
         end; lia.
Qed.

Lemma b64decode_group (a b c : N) (rest : list N) :
  (a < 256)%N -> (b < 256)%N -> (c < 256)%N ->
  b64decode (b64encode (a :: b :: c :: rest))
  = match b64decode (b64encode rest) with
    | Some bs => Some (a :: b :: c :: bs)
    | None => None
    end.
Proof.
  intros Ha Hb Hc.
  change (b64encode (a :: b :: c :: rest))
    with ([b64_char (a / 4); b64_char ((a mod 4) * 16 + b / 16);
           b64_char ((b mod 16) * 4 + c / 64); b64_char (c mod 64)]%N
          ++ b64encode rest).
  cbn [app b64decode].
  rewrite !b64_value_char, !b64_char_not_pad by lia.
  destruct (b64decode (b64encode rest)); [|reflexivity].
  do 2 f_equal; [lia | f_equal; [lia | f_equal; lia]].
Qed.

(** Decoding what [b64encode] gives returns the bytes. *)
Lemma b64_round_trip (bs : list N) :
  Forall (fun b => (b < 256)%N) bs -> b64decode (b64encode bs) = Some bs.
Proof.
  assert (G : forall n bs, (List.length bs <= n)%nat ->
                Forall (fun b => (b < 256)%N) bs ->
                b64decode (b64encode bs) = Some bs).
  { induction n as [|n IH]; intros l Hl F.
    - destruct l; [reflexivity | simpl in Hl; lia].
    - destruct l as [|a [|b [|c rest]]]; [reflexivity | | |].
      + inversion F; subst; cbn [b64encode b64decode].
        rewrite !b64_value_char by lia; cbn [N.eqb Pos.eqb].
        do 2 f_equal; lia.
      + inversion F as [|? ? Ha F']; inversion F'; subst.
        cbn [b64encode b64decode].
        rewrite !b64_value_char, b64_char_not_pad by lia; cbn [N.eqb Pos.eqb].
        do 2 f_equal; [lia | f_equal; lia].
      + inversion F as [|? ? Ha F1]; inversion F1 as [|? ? Hb F2];
          inversion F2 as [|? ? Hc F3]; subst.
        rewrite b64decode_group, IH by (assumption || (simpl in Hl; lia)).
        reflexivity. }
  apply (G (List.length bs)); lia.
Qed.

Ltac some_eq E :=
  match type of E with
  | Some ?l = Some ?r => assert (r = l) by congruence; subst r; clear E
  | None = Some _ => discriminate E
  end.

Lemma utf8_encode_char_bytes (c : N) (bs : list N) :
  (c < 1114112)%N -> utf8_encode_char c = Some bs ->
  Forall (fun b => (b < 256)%N) bs.
Proof.
  intros Hc E.
  destruct (utf8_encode_char_cases c)
    as [(H & E')|[(H & E')|[(H & _ & E')|[(H & _ & E')|(H & E')]]]];
    rewrite E' in E; some_eq E;
    repeat (apply Forall_cons; [lia|]); apply Forall_nil.
Qed.

Lemma utf8_decode_char (c : N) (bs rest : list N) :
  (c < 1114112)%N -> utf8_encode_char c = Some bs ->
  utf8_decode (bs ++ rest) = c :: utf8_decode rest.
Proof.
  intros Hc E.
  destruct (utf8_encode_char_cases c)
    as [(H & E')|[(H & E')|[(H & _ & E')|[(H & _ & E')|(H & E')]]]];
    rewrite E' in E; some_eq E; cbn [app utf8_decode].
  - destruct (N.ltb_spec c 128); [reflexivity | lia].
  - destruct (N.ltb_spec (192 + c / 64) 128); [lia|].
    destruct (N.ltb_spec (192 + c / 64) 224); [|lia].
    f_equal; lia.
  - destruct (N.ltb_spec (224 + c / 4096) 128); [lia|].
    destruct (N.ltb_spec (224 + c / 4096) 224); [lia|].
    destruct (N.ltb_spec (224 + c / 4096) 240); [|lia].
    f_equal; lia.
  - destruct (N.ltb_spec (240 + c / 262144) 128); [lia|].
    destruct (N.ltb_spec (240 + c / 262144) 224); [lia|].
    destruct (N.ltb_spec (240 + c / 262144) 240); [lia|].
    f_equal; lia.
Qed.

Lemma utf8_round_trip (s : str) (bs : list N) :
  forallb (fun c => (c <? 1114112)%N) s = true ->
  utf8_encode s = Some bs ->
  utf8_decode bs = s /\ Forall (fun b => (b < 256)%N) bs.
Proof.
  revert bs; induction s as [|c s IH]; intros bs; cbn [forallb utf8_encode].
  - intros _ [= <-]; split; [reflexivity | constructor].
  - rewrite andb_true_iff, N.ltb_lt; intros [Hc Hs].
    destruct (utf8_encode_char c) as [b1|] eqn:E1; [|discriminate].
    destruct (utf8_encode s) as [b2|] eqn:E2; [|discriminate].
    intros [= <-]; destruct (IH b2 Hs eq_refl) as [D F]; split.
    + rewrite (utf8_decode_char _ Hc E1), D; reflexivity.
    + apply Forall_app; split;
        [apply (utf8_encode_char_bytes Hc E1) | exact F].
Qed.

(** X3.  For a token of characters (no surrogate among them), the
    header is the one item [Authorization], its value is ["Basic "]
    followed by base64 text, and reading that text back gives the empty
    user name, a colon and the token. *)
Theorem auth_header_round_trip (pat_token : str) :
  forallb scalar_value pat_token = true ->
  exists pat_base64,
    build_auth_header pat_token
    = Some [(py "Authorization", py "Basic " ++ pat_base64)]
    /\ option_map utf8_decode (b64decode pat_base64)
       = Some (58%N :: pat_token)
    /\ credentials [(py "Authorization", py "Basic " ++ pat_base64)]
       = Some (py ":" ++ pat_token).
Proof.
  intros H; unfold build_auth_header.
  assert (Hv : forallb (fun c => (c <? 1114112)%N) (58%N :: pat_token) = true).
  { cbn [forallb]; apply andb_true_iff; split; [reflexivity|].
    apply forallb_forall; intros x Hx.
    rewrite forallb_forall in H; specialize (H x Hx).
    unfold scalar_value in H; apply andb_true_iff in H as [H _]; exact H. }
  destruct (utf8_encode (58%N :: pat_token)) as [bs|] eqn:E.
  - destruct (utf8_round_trip _ Hv E) as [D F].
    exists (b64encode bs); split; [reflexivity|].
    assert (R : option_map utf8_decode (b64decode (b64encode bs))
                = Some (58%N :: pat_token))
      by (rewrite b64_round_trip by exact F; simpl; rewrite D; reflexivity).
    split; [exact R|].
    unfold credentials; cbn [dict_get]; rewrite str_eqb_refl.
    change (startswith (py "Basic ") (py "Basic " ++ b64encode bs)) with true.
    change (skipn 6 (py "Basic " ++ b64encode bs)) with (b64encode bs).
    exact R.
  - exfalso; apply utf8_encode_None in E; cbn [existsb] in E.
    change (surrogate 58) with false in E; cbn [orb] in E.
    apply existsb_exists in E as (x & Hx & Sx).
    rewrite forallb_forall in H; specialize (H x Hx).
    unfold scalar_value in H; rewrite Sx, andb_false_r in H; discriminate.
Qed.

Lemma auth_header_round_trip_witness :
  exists pat_base64,
    build_auth_header (py "abc")
    = Some [(py "Authorization", py "Basic " ++ pat_base64)]
    /\ option_map utf8_decode (b64decode pat_base64) = Some (py ":abc")
    /\ credentials [(py "Authorization", py "Basic " ++ pat_base64)]
       = Some (py ":abc").
Proof. exact (@auth_header_round_trip (py "abc") eq_refl). Defined.

(** X4.  [build_auth_header] raises exactly for a token that holds a
    surrogate code point; for every other token it returns a header. *)
Theorem auth_header_raises_on_surrogates (pat_token : str) :
  build_auth_header pat_token = None <-> existsb surrogate pat_token = true.
Proof.
  unfold build_auth_header.
  destruct (utf8_encode (58%N :: pat_token)) as [bs|] eqn:E.
  - split; [discriminate|]; intros H.
    assert (N : utf8_encode (58%N :: pat_token) = None)
      by (apply utf8_encode_None; cbn [existsb]; rewrite H; apply orb_true_r).
    congruence.
  - split; [intros _ | reflexivity].
    apply utf8_encode_None in E; exact E.
Qed.

(** ** Instances *)

Lemma auth_header_raises_on_surrogates_witness :
  build_auth_header (py "ab" ++ [55296%N]) = None.
Proof.
  exact (proj2 (@auth_header_raises_on_surrogates (py "ab" ++ [55296%N]))
           eq_refl).
Defined.

Lemma flatten_json_size_witness :
  flatten_json (JList [JList []; JDict []]) [] = [].
Proof.
  exact (proj2 (proj2 (@flatten_json_size (JList [JList []; JDict []]) []))
           eq_refl).
Defined.

Lemma merge_keys_witness :
  In (py "c")
    (map key (merge [{| key := py "a"; value := py "1"; isSecret := true |}]
                [(py "c", py "9")])).
Proof.
  exact (proj2 (proj1 (@merge_keys
                  [{| key := py "a"; value := py "1"; isSecret := true |}]
                  [(py "c", py "9")]) (py "c"))
           (or_intror (or_introl eq_refl))).
Defined.

Lemma payload_keys_are_clean_witness :
  truthy (py "a") = true /\ strip (py "a") = py "a"
  /\ exists row, In row [padded_row] /\ py "a" = strip (key row).
Proof.
  exact (proj2 (proj2 (@payload_keys_are_clean [padded_row])) (py "a")
           (or_introl eq_refl)).
Defined.

Lemma create_vg_always_answers_witness :
  exists resp,
    fst (run_create_vg repr_plain sample_request pending_session
           (service (Exn (py "connection refused")) (Ok created)))
    = Ok resp.
Proof.
  exact (proj1 (@create_vg_always_answers repr_plain sample_request
                  pending_session
                  (service (Exn (py "connection refused")) (Ok created)))).
Defined.

Lemma init_session_fills_only_witness :
  form_data
    (init_session {| variables := None; form_data := Some sample_form |})
  = Some sample_form.
Proof.
  exact (proj2 (proj2 (proj2 (@init_session_fills_only
           {| variables := None; form_data := Some sample_form |})))
           sample_form eq_refl).
Defined.
